(** * AI chat assistant of the LMS front end

    A shallow embedding of [src/services/ai-chat.service.ts] (format
    translation, provider selection, fetch-and-parse, session-storage
    persistence) and of the [Chat] component that drives it, with the
    properties the specification states about them. *)

From Stdlib Require Import ZArith QArith Lia Ascii.
From stdpp Require Import base option list strings pretty gmap.

Set Warnings "-register-all".
Local Open Scope Z_scope.

(** ** JavaScript values the service manipulates

    A string is a sequence of code units; the model keeps those below
    256, one [ascii] each. *)

(** A [Date] holds a time value: milliseconds since the epoch, or NaN
    (an "Invalid Date"). *)
Inductive Date :=
  | Time (ms : Z)
  | InvalidDate.

(** [export interface ChatMessage] *)
Record ChatMessage := {
  id : string;
  text : string;
  isUser : bool;
  timestamp : Date;
}.

(** [interface OpenAIMessage]; the role is the string the request carries. *)
Module OpenAI.
Record Message := { role : string; content : string }.
End OpenAI.

(** [interface GeminiMessage] *)
Module Gemini.
Record Part := { text : string }.
Record Message := { role : string; parts : list Part }.
End Gemini.

(** What [JSON.parse] and [response.json()] produce.  Numbers are
    restricted to integers: the service never computes with one. *)
Inductive json :=
  | JNull
  | JBool (b : bool)
  | JNum (n : Z)
  | JStr (s : string)
  | JArr (elems : list json)
  | JObj (props : list (string * json)).

(** A thrown value: an [Error] instance (of any subclass) with its
    message, or anything else. *)
Inductive exn :=
  | Error (message : string)
  | Thrown (v : json).

(** Outcome of evaluating an expression or settling a promise. *)
Inductive completion (A : Type) :=
  | Return (a : A)
  | Throw (e : exn).
Arguments Return {A} a.
Arguments Throw {A} e.

Definition cbind {A B} (c : completion A) (k : A → completion B) : completion B :=
  match c with
  | Return a => k a
  | Throw e => Throw e
  end.

#[export] Instance completion_bind : MBind completion := fun A B k c => cbind c k.
#[export] Instance completion_ret : MRet completion := fun A a => Return a.

Definition LF : string := String "010"%char EmptyString.

(** [String.prototype.trim] strips white space and line terminators;
    below 256 these are the code units 9 to 13, 32 and 160. *)
Definition is_space (c : ascii) : bool :=
  let n := Ascii.N_of_ascii c in
  ((9 <=? n) && (n <=? 13))%N || (n =? 32)%N || (n =? 160)%N.

Fixpoint trimStart (s : string) : string :=
  match s with
  | String c s' => if is_space c then trimStart s' else s
  | EmptyString => EmptyString
  end.

Fixpoint trimEnd (s : string) : string :=
  match s with
  | EmptyString => EmptyString
  | String c s' =>
      match trimEnd s' with
      | EmptyString => if is_space c then EmptyString else String c EmptyString
      | t => String c t
      end
  end.

Definition trim (s : string) : string := trimEnd (trimStart s).

Fixpoint join (sep : string) (l : list string) : string :=
  match l with
  | [] => ""
  | [s] => s
  | s :: l' => s +:+ sep +:+ join sep l'
  end.

(** [ToString] of a parsed value, as a template literal applies it. *)
Fixpoint ToString (v : json) : string :=
  match v with
  | JNull => "null"
  | JBool true => "true"
  | JBool false => "false"
  | JNum n => pretty n
  | JStr s => s
  | JArr l =>
      join ","
        ((fix elems (l : list json) : list string :=
            match l with
            | [] => []
            | JNull :: l' => "" :: elems l'
            | e :: l' => ToString e :: elems l'
            end) l)
  | JObj _ => "[object Object]"
  end.

(** [ToBoolean]; [None] is [undefined]. *)
Definition truthy (v : option json) : bool :=
  match v with
  | None | Some JNull => false
  | Some (JBool b) => b
  | Some (JNum n) => negb (n =? 0)
  | Some (JStr s) => negb (String.eqb s "")
  | Some (JArr _) | Some (JObj _) => true
  end.

(** [v === 0] *)
Definition is_zero (v : option json) : bool :=
  match v with
  | Some (JNum 0) => true
  | _ => false
  end.

Fixpoint assoc {A} (k : string) (l : list (string * A)) : option A :=
  match l with
  | [] => None
  | (k', v) :: l' => if String.eqb k k' then Some v else assoc k l'
  end.

Definition TypeError_read (of_ : string) (key : string) : exn :=
  Error ("Cannot read properties of " +:+ of_ +:+ " (reading '" +:+ key +:+ "')").

(** [base.key] for the property names the service reads, none of which
    is inherited from a prototype except [length]. *)
Definition get (base : option json) (key : string) : completion (option json) :=
  match base with
  | None => Throw (TypeError_read "undefined" key)
  | Some JNull => Throw (TypeError_read "null" key)
  | Some (JObj props) => Return (assoc key props)
  | Some (JArr l) =>
      Return (if String.eqb key "length" then Some (JNum (Z.of_nat (length l))) else None)
  | Some (JStr s) =>
      Return (if String.eqb key "length" then Some (JNum (Z.of_nat (String.length s))) else None)
  | Some (JBool _) | Some (JNum _) => Return None
  end.

Fixpoint string_get (s : string) (i : nat) : option ascii :=
  match s, i with
  | EmptyString, _ => None
  | String c _, O => Some c
  | String _ s', S i' => string_get s' i'
  end.

(** [base[i]] *)
Definition get_index (base : option json) (i : nat) : completion (option json) :=
  match base with
  | None => Throw (TypeError_read "undefined" (pretty i))
  | Some JNull => Throw (TypeError_read "null" (pretty i))
  | Some (JArr l) => Return (l !! i)
  | Some (JStr s) => Return ((fun c => JStr (String c EmptyString)) <$> string_get s i)
  | Some (JObj props) => Return (assoc (pretty i) props)
  | Some (JBool _) | Some (JNum _) => Return None
  end.

(** [base.trim()]: only a string has the method. *)
Definition call_trim (base : option json) : completion string :=
  match base with
  | None => Throw (TypeError_read "undefined" "trim")
  | Some JNull => Throw (TypeError_read "null" "trim")
  | Some (JStr s) => Return (trim s)
  | Some _ => Throw (Error "trim is not a function")
  end.

(** ** Format translation *)

Definition systemInstruction : string :=
  "You are a helpful AI assistant for students in a Learning Management System. You can help with academic questions, study tips, project guidance, and general educational support. Be friendly, encouraging, and provide practical advice.".

Definition systemMessage : OpenAI.Message :=
  {| OpenAI.role := "system"; OpenAI.content := systemInstruction |}.

Definition convertToOpenAIFormat (messages : list ChatMessage) : list OpenAI.Message :=
  let chatMessages :=
    map (fun msg =>
           {| OpenAI.role := if isUser msg then "user" else "assistant";
              OpenAI.content := text msg |}) messages in
  systemMessage :: chatMessages.

(** One iteration of the [forEach] body: the state is the array being
    filled and the [firstUserMessage] flag. *)
Definition gemini_push (st : list Gemini.Message * bool) (msg : ChatMessage)
  : list Gemini.Message * bool :=
  let '(geminiMessages, firstUserMessage) := st in
  if isUser msg then
    let content :=
      if firstUserMessage
      then systemInstruction +:+ LF +:+ LF +:+ "User: " +:+ text msg
      else text msg in
    (geminiMessages ++ [ {| Gemini.role := "user";
                            Gemini.parts := [ {| Gemini.text := content |} ] |} ],
     false)
  else
    (geminiMessages ++ [ {| Gemini.role := "model";
                            Gemini.parts := [ {| Gemini.text := text msg |} ] |} ],
     firstUserMessage).

Definition convertToGeminiFormat (messages : list ChatMessage) : list Gemini.Message :=
  fst (fold_left gemini_push messages ([], true)).

(** The two shapes of a translated message. *)
Definition gemini_user (first : bool) (msg : ChatMessage) : Gemini.Message :=
  {| Gemini.role := "user";
     Gemini.parts :=
       [ {| Gemini.text :=
              if first then systemInstruction +:+ LF +:+ LF +:+ "User: " +:+ text msg
              else text msg |} ] |}.

Definition gemini_model (msg : ChatMessage) : Gemini.Message :=
  {| Gemini.role := "model"; Gemini.parts := [ {| Gemini.text := text msg |} ] |}.

(** ** The provider calls

    [fetch] is the only operation that leaves the page.  A program is a
    tree of the effects the component performs; the environment answers
    each [Fetch] with the settlement of its promise. *)

Inductive RequestBody :=
  | GeminiBody (contents : list Gemini.Message) (temperature : Q) (maxOutputTokens : Z)
  | ChatCompletionBody (model : string) (messages : list OpenAI.Message)
      (max_tokens : Z) (temperature : Q).

Record Request := {
  url : string;
  method : string;
  headers : list (string * string);
  body : RequestBody;
}.

(** A settled response: [response.json()] is the settlement of the body
    promise. *)
Record Response := {
  ok : bool;
  status : Z;
  statusText : string;
  json_body : completion json;
}.

(** State of the [Chat] component held by [useState]. *)
Record ChatState := {
  messages : list ChatMessage;
  inputValue : string;
  isLoading : bool;
}.

Inductive Prog (A : Type) :=
  | Ret (a : A)
  | Raise (e : exn)
  | Fetch (req : Request) (k : completion Response → Prog A)
  | ConsoleError (label : string) (k : Prog A)
  | DateNow (k : Z → Prog A)
  | SetState (u : ChatState → ChatState) (k : Prog A).
Arguments Ret {A} a.
Arguments Raise {A} e.
Arguments Fetch {A} req k.
Arguments ConsoleError {A} label k.
Arguments DateNow {A} k.
Arguments SetState {A} u k.

Fixpoint bind {A B} (p : Prog A) (f : A → Prog B) : Prog B :=
  match p with
  | Ret a => f a
  | Raise e => Raise e
  | Fetch req k => Fetch req (fun o => bind (k o) f)
  | ConsoleError l k => ConsoleError l (bind k f)
  | DateNow k => DateNow (fun t => bind (k t) f)
  | SetState u k => SetState u (bind k f)
  end.

(** [try { p } catch (error) { h error }] *)
Fixpoint try_catch {A} (p : Prog A) (h : exn → Prog A) : Prog A :=
  match p with
  | Ret a => Ret a
  | Raise e => h e
  | Fetch req k => Fetch req (fun o => try_catch (k o) h)
  | ConsoleError l k => ConsoleError l (try_catch k h)
  | DateNow k => DateNow (fun t => try_catch (k t) h)
  | SetState u k => SetState u (try_catch k h)
  end.

(** [try { p } finally { f }], for an [f] that completes normally. *)
Fixpoint try_finally {A} (p : Prog A) (f : Prog unit) : Prog A :=
  match p with
  | Ret a => bind f (fun _ => Ret a)
  | Raise e => bind f (fun _ => Raise e)
  | Fetch req k => Fetch req (fun o => try_finally (k o) f)
  | ConsoleError l k => ConsoleError l (try_finally k f)
  | DateNow k => DateNow (fun t => try_finally (k t) f)
  | SetState u k => SetState u (try_finally k f)
  end.

Definition lift {A} (c : completion A) : Prog A :=
  match c with
  | Return a => Ret a
  | Throw e => Raise e
  end.

(** [await fetch(req)] *)
Definition fetch (req : Request) : Prog Response := Fetch req lift.

#[export] Instance Prog_bind : MBind Prog := fun A B f p => bind p f.
#[export] Instance Prog_ret : MRet Prog := fun A a => Ret a.

(** [import.meta.env]: each variable is a string or [undefined]. *)
Record Env := {
  VITE_GEMINI_API_KEY : option string;
  VITE_GROQ_API_KEY : option string;
  VITE_OPENAI_API_KEY : option string;
}.

(** [if (key)]: a key counts when it is a non-empty string. *)
Definition key_set (key : option string) : bool :=
  match key with
  | Some s => negb (String.eqb s "")
  | None => false
  end.

Definition key_string (key : option string) : string := default "" key.

(** [errorData.error?.message || ''] inside the template literal. *)
Definition error_detail (errorData : json) : completion string :=
  (err ← get (Some errorData) "error";
   match err with
   | None | Some JNull => Return ""
   | Some _ =>
       msg ← get err "message";
       Return (if truthy msg then from_option ToString "" msg else "")
   end).

(** [throw new Error(`${api} API request failed: ...`)] *)
Definition request_failed (api : string) (response : Response) : completion string :=
  (let errorData :=
     match json_body response with
     | Return v => v
     | Throw _ => JObj []
     end in
   detail ← error_detail errorData;
   Throw (Error (api +:+ " API request failed: " +:+ pretty (status response)
                 +:+ " " +:+ statusText response +:+ ". " +:+ detail))).

Definition gemini_endpoint (apiKey : string) : string :=
  "https://generativelanguage.googleapis.com/v1beta/models/gemini-1.5-flash:generateContent?key="
  +:+ apiKey.

Definition gemini_request (messages : list ChatMessage) (apiKey : string) : Request :=
  {| url := gemini_endpoint apiKey;
     method := "POST";
     headers := [("Content-Type", "application/json")];
     body := GeminiBody (convertToGeminiFormat messages) (7 # 10) 1000 |}.

(** What [getGeminiResponse] does with the settled response. *)
Definition gemini_result (response : Response) : completion string :=
  if negb (ok response) then request_failed "Gemini" response
  else
    data ← json_body response;
    candidates ← get (Some data) "candidates";
    empty ←
      (if negb (truthy candidates) then Return true
       else
         len ← get candidates "length";
         if is_zero len then Return true
         else
           c0 ← get_index candidates 0;
           content ← get c0 "content";
           parts ← get content "parts";
           p0 ← get_index parts 0;
           Return (negb (truthy p0)));
    if (empty : bool) then Throw (Error "No response received from Gemini API")
    else
      c0 ← get_index candidates 0;
      content ← get c0 "content";
      parts ← get content "parts";
      p0 ← get_index parts 0;
      txt ← get p0 "text";
      call_trim txt.

(** Gemini API implementation *)
Definition getGeminiResponse (messages : list ChatMessage) (apiKey : string) : Prog string :=
  response ← fetch (gemini_request messages apiKey);
  lift (gemini_result response).

Definition chat_completion_request (endpoint model : string)
    (messages : list ChatMessage) (apiKey : string) : Request :=
  {| url := endpoint;
     method := "POST";
     headers := [("Content-Type", "application/json");
                 ("Authorization", "Bearer " +:+ apiKey)];
     body := ChatCompletionBody model (convertToOpenAIFormat messages) 1000 (7 # 10) |}.

(** What [getGroqResponse] and [getOpenAIResponse] do with the settled
    response, the same word for word but for the name in the messages. *)
Definition chat_completion_result (api : string) (response : Response) : completion string :=
  (if negb (ok response) then request_failed api response
   else
     data ← json_body response;
     choices ← get (Some data) "choices";
     empty ←
       (if negb (truthy choices) then Return true
        else len ← get choices "length"; Return (is_zero len));
     if (empty : bool)
     then Throw (Error ("No response received from " +:+ api +:+ " API"))
     else
       c0 ← get_index choices 0;
       message ← get c0 "message";
       content ← get message "content";
       call_trim content).

Definition groq_request := chat_completion_request
  "https://api.groq.com/openai/v1/chat/completions" "llama-3.3-70b-versatile".

(** Groq API implementation *)
Definition getGroqResponse (messages : list ChatMessage) (apiKey : string) : Prog string :=
  (response ← fetch (groq_request messages apiKey);
   lift (chat_completion_result "Groq" response)).

Definition openai_request := chat_completion_request
  "https://api.openai.com/v1/chat/completions" "gpt-3.5-turbo".

(** OpenAI API implementation *)
Definition getOpenAIResponse (messages : list ChatMessage) (apiKey : string) : Prog string :=
  (response ← fetch (openai_request messages apiKey);
   lift (chat_completion_result "OpenAI" response)).

Definition no_key_message : string :=
  "No API key found. Please set VITE_GEMINI_API_KEY, VITE_GROQ_API_KEY, or VITE_OPENAI_API_KEY in your environment variables.".

Definition fallback_message : string :=
  "Error: Could not fetch response. Please try again later.".

(** The body of the [try] block of [getAIResponse]. *)
Definition getAIResponse_try (env : Env) (messages : list ChatMessage) : Prog string :=
  let geminiKey := VITE_GEMINI_API_KEY env in
  let groqKey := VITE_GROQ_API_KEY env in
  let openaiKey := VITE_OPENAI_API_KEY env in
  if key_set geminiKey then getGeminiResponse messages (key_string geminiKey)
  else if key_set groqKey then getGroqResponse messages (key_string groqKey)
  else if key_set openaiKey then getOpenAIResponse messages (key_string openaiKey)
  else Raise (Error no_key_message).

Definition getAIResponse_catch (error : exn) : Prog string :=
  ConsoleError "AI Response Error:"
    (match error with
     | Error message => Ret ("Error: " +:+ message)
     | Thrown _ => Ret fallback_message
     end).

Definition getAIResponse (env : Env) (messages : list ChatMessage) : Prog string :=
  try_catch (getAIResponse_try env messages) getAIResponse_catch.

(** What one run of a program shows to the outside. *)
Inductive Obs :=
  | ObsFetch (req : Request)
  | ObsLog (label : string).

Definition fetches (t : list Obs) : list Request :=
  omap (fun o => match o with ObsFetch r => Some r | ObsLog _ => None end) t.

Definition logs (t : list Obs) : list string :=
  omap (fun o => match o with ObsLog l => Some l | ObsFetch _ => None end) t.

(** Runs a program to its end against a network that settles the
    request [req] with [net req], a clock that reads [now] and the
    component state [st]. *)
Fixpoint run {A} (net : Request → completion Response) (now : Z)
    (p : Prog A) (st : ChatState) : completion A * ChatState * list Obs :=
  match p with
  | Ret a => (Return a, st, [])
  | Raise e => (Throw e, st, [])
  | Fetch req k =>
      let '(r, st', t) := run net now (k (net req)) st in (r, st', ObsFetch req :: t)
  | ConsoleError l k =>
      let '(r, st', t) := run net now k st in (r, st', ObsLog l :: t)
  | DateNow k => run net now (k now) st
  | SetState u k => run net now k (u st)
  end.

(** ** Session storage *)

(** The storage area of the tab.  Every access throws when the browser
    blocks storage for the page; [setItem] throws when the area would
    grow beyond its quota. *)
Record Storage := {
  blocked : bool;
  quota : N;
  items : gmap string string;
}.

Definition usage (m : gmap string string) : N :=
  map_fold (fun k v n => (N.of_nat (String.length k + String.length v) + n)%N) 0%N m.

Definition getItem (st : Storage) (key : string) : completion (option string) :=
  if blocked st then Throw (Error "The operation is insecure.")
  else Return (items st !! key).

Definition setItem (st : Storage) (key value : string) : completion Storage :=
  if blocked st then Throw (Error "The operation is insecure.")
  else if (quota st <? usage (<[key := value]> (items st)))%N
  then Throw (Error "The quota has been exceeded.")
  else Return {| blocked := blocked st; quota := quota st;
                 items := <[key := value]> (items st) |}.

Definition removeItem (st : Storage) (key : string) : completion Storage :=
  if blocked st then Throw (Error "The operation is insecure.")
  else Return {| blocked := blocked st; quota := quota st;
                 items := delete key (items st) |}.

(** What the service reaches of the browser: the storage area and the
    console. *)
Record Browser := {
  sessionStorage : Storage;
  console : list string;
}.

Definition console_error (label : string) (b : Browser) : Browser :=
  {| sessionStorage := sessionStorage b; console := console b ++ [label] |}.

Definition with_storage (st : Storage) (b : Browser) : Browser :=
  {| sessionStorage := st; console := console b |}.

(** The functions of the JavaScript runtime the storage code calls. *)
Class Runtime := {
  JSON_stringify : json → string;
  JSON_parse : string → completion json;
  toISOString : Z → string;
  Date_parse : string → Date;
}.

Definition MAX_TIME : Z := 8640000000000000.

Definition TimeClip (t : Z) : Date :=
  if (Z.abs t <=? MAX_TIME) then Time t else InvalidDate.

(** A [Date] whose time value is a number. *)
Definition valid_Date (d : Date) : Prop :=
  match d with
  | Time ms => - MAX_TIME ≤ ms ≤ MAX_TIME
  | InvalidDate => False
  end.

(** JSON trees that are images of JavaScript values without loss: an
    object lists each key once, in insertion order (no key that looks
    like an array index, which would be moved to the front).  Numbers
    are left out: the storage code writes none, and -0 is written as 0. *)
Definition index_like (k : string) : bool :=
  match k with
  | String c _ => (48 <=? Ascii.N_of_ascii c)%N && (Ascii.N_of_ascii c <=? 57)%N
  | EmptyString => false
  end.

Fixpoint distinct (ks : list string) : bool :=
  match ks with
  | [] => true
  | k :: ks' => negb (existsb (String.eqb k) ks') && distinct ks'
  end.

Fixpoint json_wf (v : json) : bool :=
  match v with
  | JNull | JBool _ | JStr _ => true
  | JNum _ => false
  | JArr l => forallb json_wf l
  | JObj props =>
      distinct (map fst props)
      && forallb (fun k => negb (index_like k)) (map fst props)
      && (fix all (l : list (string * json)) : bool :=
            match l with
            | [] => true
            | (_, x) :: l' => json_wf x && all l'
            end) props
  end.

(** What ECMA-262 promises of these functions, as far as the storage
    code relies on it. *)
Record RuntimeLaws (R : Runtime) : Prop := {
  JSON_parse_stringify :
    ∀ v, json_wf v = true → JSON_parse (JSON_stringify v) = Return v;
  JSON_stringify_nonempty :
    ∀ v, json_wf v = true → JSON_stringify v ≠ "";
  Date_parse_toISOString :
    ∀ ms, - MAX_TIME ≤ ms ≤ MAX_TIME → Date_parse (toISOString ms) = Time ms;
}.

Section Service.
Context {R : Runtime}.

(** [Date.prototype.toJSON] *)
Definition Date_toJSON (d : Date) : json :=
  match d with
  | Time ms => JStr (toISOString ms)
  | InvalidDate => JNull
  end.

(** [new Date(value)]; [None] is [undefined]. *)
Definition Date_new (value : option json) : Date :=
  match value with
  | None => InvalidDate
  | Some JNull => Time 0
  | Some (JBool b) => Time (if b then 1 else 0)
  | Some (JNum n) => TimeClip n
  | Some (JStr s) => Date_parse s
  | Some v => Date_parse (ToString v)
  end.

(** The tree [JSON.stringify] serialises for a message. *)
Definition ChatMessage_toJSON (m : ChatMessage) : json :=
  JObj [("id", JStr (id m)); ("text", JStr (text m));
        ("isUser", JBool (isUser m)); ("timestamp", Date_toJSON (timestamp m))].

(** A property of a loaded message: a parsed value, or the [Date] the
    loader builds. *)
Inductive value :=
  | VJson (j : json)
  | VDate (d : Date).

Definition object := list (string * value).

Definition object_of_message (m : ChatMessage) : object :=
  [("id", VJson (JStr (id m))); ("text", VJson (JStr (text m)));
   ("isUser", VJson (JBool (isUser m))); ("timestamp", VDate (timestamp m))].

(** The loader's result is typed [ChatMessage[]] without a check; the
    component is modelled on the objects that do have that shape. *)
Definition as_ChatMessage (o : object) : option ChatMessage :=
  match o with
  | [(k1, VJson (JStr i)); (k2, VJson (JStr t)); (k3, VJson (JBool u)); (k4, VDate d)] =>
      if String.eqb k1 "id" && String.eqb k2 "text"
         && String.eqb k3 "isUser" && String.eqb k4 "timestamp"
      then Some {| id := i; text := t; isUser := u; timestamp := d |}
      else None
  | _ => None
  end.

Fixpoint string_chars (s : string) : list json :=
  match s with
  | EmptyString => []
  | String c s' => JStr (String c EmptyString) :: string_chars s'
  end.

(** The own enumerable properties [{...msg}] copies. *)
Definition spread (msg : json) : list (string * json) :=
  match msg with
  | JObj props => props
  | JArr l => imap (fun i e => (pretty i, e)) l
  | JStr s => imap (fun i e => (pretty i, e)) (string_chars s)
  | JNull | JBool _ | JNum _ => []
  end.

(** Defining a property in an object literal: an existing key keeps its
    place, a new one goes last. *)
Fixpoint set_prop (key : string) (v : value) (o : object) : object :=
  match o with
  | [] => [(key, v)]
  | (k, x) :: o' => if String.eqb key k then (k, v) :: o' else (k, x) :: set_prop key v o'
  end.

(** [{ ...msg, timestamp: new Date(msg.timestamp) }] *)
Definition revive (msg : json) : completion object :=
  ts ← get (Some msg) "timestamp";
  Return (set_prop "timestamp" (VDate (Date_new ts))
            (map (fun kv => (fst kv, VJson (snd kv))) (spread msg))).

Fixpoint map_revive (l : list json) : completion (list object) :=
  match l with
  | [] => Return []
  | msg :: l' => o ← revive msg; os ← map_revive l'; Return (o :: os)
  end.

Definition AI_CHAT_STORAGE_KEY : string := "ai_chat_messages".

Definition saveMessagesToStorage (messages : list ChatMessage) (b : Browser) : Browser :=
  match setItem (sessionStorage b) AI_CHAT_STORAGE_KEY
          (JSON_stringify (JArr (map ChatMessage_toJSON messages))) with
  | Return st => with_storage st b
  | Throw _ => console_error "Failed to save messages to storage:" b
  end.

Definition welcome_message (now : Z) : ChatMessage :=
  {| id := "1";
     text := "Hello! I'm your AI study assistant. I can help you with academic questions, study tips, project guidance, and more. What would you like to know?";
     isUser := false;
     timestamp := Time now |}.

(** The [try] block of [loadMessagesFromStorage]: [Return None] when it
    falls through to the welcome message. *)
Definition loadMessagesFromStorage_try (b : Browser) : completion (option (list object)) :=
  stored ← getItem (sessionStorage b) AI_CHAT_STORAGE_KEY;
  match stored with
  | Some s =>
      if String.eqb s "" then Return None
      else
        parsed ← JSON_parse s;
        match parsed with
        | JArr l => os ← map_revive l; Return (Some os)
        | JNull => Throw (TypeError_read "null" "map")
        | _ => Throw (Error "parsed.map is not a function")
        end
  | None => Return None
  end.

Definition loadMessagesFromStorage (now : Z) (b : Browser) : list object * Browser :=
  match loadMessagesFromStorage_try b with
  | Return (Some os) => (os, b)
  | Return None => ([object_of_message (welcome_message now)], b)
  | Throw _ =>
      ([object_of_message (welcome_message now)],
       console_error "Failed to load messages from storage:" b)
  end.

Definition clearChatHistory (b : Browser) : Browser :=
  match removeItem (sessionStorage b) AI_CHAT_STORAGE_KEY with
  | Return st => with_storage st b
  | Throw _ => console_error "Failed to clear chat history:" b
  end.

End Service.

(** ** The [Chat] component *)

#[export] Instance Date_eq_dec : EqDecision Date.
Proof. solve_decision. Defined.

#[export] Instance ChatMessage_eq_dec : EqDecision ChatMessage.
Proof. solve_decision. Defined.

(** The page: the component state, the requests in flight, each with
    the handler suspended at its [await fetch], the browser, the wall
    clock and the requests sent so far. *)
Record World := {
  ui : ChatState;
  pending : list (Request * (completion Response → Prog unit));
  browser : Browser;
  clock : Z;
  requests : list Request;
}.

Definition set_ui (u : ChatState → ChatState) (w : World) : World :=
  {| ui := u (ui w); pending := pending w; browser := browser w;
     clock := clock w; requests := requests w |}.

Definition set_pending (ps : list (Request * (completion Response → Prog unit)))
    (w : World) : World :=
  {| ui := ui w; pending := ps; browser := browser w;
     clock := clock w; requests := requests w |}.

Definition set_browser (u : Browser → Browser) (w : World) : World :=
  {| ui := ui w; pending := pending w; browser := u (browser w);
     clock := clock w; requests := requests w |}.

Definition set_clock (t : Z) (w : World) : World :=
  {| ui := ui w; pending := pending w; browser := browser w;
     clock := t; requests := requests w |}.

Definition sent (req : Request) (k : completion Response → Prog unit) (w : World) : World :=
  {| ui := ui w; pending := pending w ++ [(req, k)]; browser := browser w;
     clock := clock w; requests := requests w ++ [req] |}.

(** Runs a handler until it returns or suspends at a [fetch]. *)
Fixpoint exec (p : Prog unit) (w : World) : World :=
  match p with
  | Ret _ => w
  | Raise _ => w
  | Fetch req k => sent req k w
  | ConsoleError l k => exec k (set_browser (console_error l) w)
  | DateNow k => exec (k (clock w)) w
  | SetState u k => exec k (set_ui u w)
  end.

Definition setMessages (u : list ChatMessage → list ChatMessage) : Prog unit :=
  SetState (fun s => {| messages := u (messages s); inputValue := inputValue s;
                        isLoading := isLoading s |}) (Ret tt).

Definition setInputValue (v : string) : Prog unit :=
  SetState (fun s => {| messages := messages s; inputValue := v;
                        isLoading := isLoading s |}) (Ret tt).

Definition setIsLoading (v : bool) : Prog unit :=
  SetState (fun s => {| messages := messages s; inputValue := inputValue s;
                        isLoading := v |}) (Ret tt).

(** [Date.now()]; [new Date()] reads the same clock. *)
Definition Date_now : Prog Z := DateNow Ret.

Section Chat.
Context {R : Runtime} (env : Env).

(** The rest of the [try] block once [getAIResponse] has resolved. *)
Definition addAIMessage (aiResponseText : string) : Prog unit :=
  now ← Date_now;
  stamp ← Date_now;
  let aiMessage :=
    {| id := pretty (now + 1); text := aiResponseText; isUser := false;
       timestamp := Time stamp |} in
  setMessages (fun prev => prev ++ [aiMessage]).

(** The [catch] block. *)
Definition addErrorMessage (error : exn) : Prog unit :=
  ConsoleError "Failed to get AI response:"
    (now ← Date_now;
     stamp ← Date_now;
     let errorMessage :=
       {| id := pretty (now + 1); text := fallback_message; isUser := false;
          timestamp := Time stamp |} in
     setMessages (fun prev => prev ++ [errorMessage])).

(** [try { ... await p ... } catch { ... } finally { setIsLoading(false) }] *)
Definition awaitAIResponse (p : Prog string) : Prog unit :=
  try_finally
    (try_catch (aiResponseText ← p; addAIMessage aiResponseText) addErrorMessage)
    (setIsLoading false).

(** [handleSendMessage], with the state [s] of the render that created
    the handler in its closure. *)
Definition handleSendMessage (s : ChatState) : Prog unit :=
  if String.eqb (trim (inputValue s)) "" || isLoading s then Ret tt
  else
    let messageText := trim (inputValue s) in
    setInputValue "";;
    setIsLoading true;;
    now ← Date_now;
    stamp ← Date_now;
    let userMessage :=
      {| id := pretty now; text := messageText; isUser := true;
         timestamp := Time stamp |} in
    setMessages (fun prev => prev ++ [userMessage]);;
    let updatedMessages := messages s ++ [userMessage] in
    awaitAIResponse (getAIResponse env updatedMessages).

Definition handleKeyPress (key : string) (shiftKey : bool) (s : ChatState) : Prog unit :=
  if String.eqb key "Enter" && negb shiftKey then handleSendMessage s
  else Ret tt.

Definition handleClearChat (w : World) : World :=
  set_ui (fun s => {| messages := []; inputValue := inputValue s;
                      isLoading := isLoading s |})
    (set_browser clearChatHistory w).

(** [useEffect(() => { if (messages.length > 0) save }, [messages])] *)
Definition save_effect (w : World) : World :=
  match messages (ui w) with
  | [] => w
  | _ :: _ => set_browser (saveMessagesToStorage (messages (ui w))) w
  end.

(** The effects that follow a render: the one above runs when
    [messages] was replaced.  Every [setMessages] call of the component
    installs a list that differs from the old one, or an empty one. *)
Definition after_render (before : World) (w : World) : World :=
  if decide (messages (ui before) = messages (ui w)) then w else save_effect w.

(** Mounting: the first render shows no message, then the load effect
    installs the stored list. *)
Definition mount (now : Z) (b : Browser) : option World :=
  let '(loadedMessages, b') := loadMessagesFromStorage now b in
  msgs ← mapM as_ChatMessage loadedMessages;
  Some (save_effect
          {| ui := {| messages := msgs; inputValue := ""; isLoading := false |};
             pending := []; browser := b'; clock := now; requests := [] |}).

(** What happens to a mounted page. *)
Inductive Event :=
  | Change (value : string)
  | Submit
  | KeyPress (key : string) (shiftKey : bool)
  | ClearChat
  | Settle (i : nat) (outcome : completion Response)
  | Tick (dt : N).

Definition step (w : World) (e : Event) : World :=
  match e with
  | Change v =>
      set_ui (fun s => {| messages := messages s; inputValue := v;
                          isLoading := isLoading s |}) w
  | Submit => after_render w (exec (handleSendMessage (ui w)) w)
  | KeyPress key shiftKey => after_render w (exec (handleKeyPress key shiftKey (ui w)) w)
  | ClearChat => after_render w (handleClearChat w)
  | Settle i outcome =>
      match pending w !! i with
      | Some (_, k) =>
          after_render w (exec (k outcome) (set_pending (delete i (pending w)) w))
      | None => w
      end
  | Tick dt => set_clock (clock w + Z.of_N dt) w
  end.

Definition steps (w : World) (es : list Event) : World := fold_left step es w.

Inductive reachable : World → Prop :=
  | reachable_mount now b w : mount now b = Some w → reachable w
  | reachable_step w e : reachable w → reachable (step w e).

End Chat.

(** ** A reference runtime

    An implementation of the four runtime functions on one-byte
    strings: compact JSON text, and the extended ISO 8601 form
    [toISOString] produces. *)
Module Ref.

Definition dquote : ascii := "034"%char.
Definition backslash : ascii := "092"%char.

Definition hex_digit (n : N) : ascii :=
  ascii_of_N (if (n <? 10)%N then 48 + n else 87 + n).

Definition hex_value (c : ascii) : option N :=
  let n := N_of_ascii c in
  if ((48 <=? n) && (n <=? 57))%N then Some (n - 48)%N
  else if ((97 <=? n) && (n <=? 102))%N then Some (n - 87)%N
  else if ((65 <=? n) && (n <=? 70))%N then Some (n - 55)%N
  else None.

(** [QuoteJSONString], one character in front of [k]. *)
Definition write_char (c : ascii) (k : string) : string :=
  let n := N_of_ascii c in
  if Ascii.eqb c dquote then String backslash (String dquote k)
  else if Ascii.eqb c backslash then String backslash (String backslash k)
  else if (n =? 8)%N then String backslash (String "b" k)
  else if (n =? 9)%N then String backslash (String "t" k)
  else if (n =? 10)%N then String backslash (String "n" k)
  else if (n =? 12)%N then String backslash (String "f" k)
  else if (n =? 13)%N then String backslash (String "r" k)
  else if (n <? 32)%N then
    String backslash (String "u" (String "0" (String "0"
      (String (hex_digit (n / 16)) (String (hex_digit (n mod 16)) k)))))
  else String c k.

Fixpoint write_chars (s : string) (k : string) : string :=
  match s with
  | EmptyString => String dquote k
  | String c s' => write_char c (write_chars s' k)
  end.

Definition write_string (s : string) (k : string) : string :=
  String dquote (write_chars s k).

(** The items of [l], separated by commas and closed by [closer], in
    front of [k]. *)
Definition write_seq {A} (item : A → string → string) (closer : ascii)
  : list A → string → string :=
  fix go (l : list A) (k : string) : string :=
    match l with
    | [] => String closer k
    | x :: l' => item x (match l' with [] => go l' k | _ :: _ => String "," (go l' k) end)
    end.

(** Writes [v] in front of [k]. *)
Fixpoint write (v : json) (k : string) : string :=
  match v with
  | JNull => String "n" (String "u" (String "l" (String "l" k)))
  | JBool true => String "t" (String "r" (String "u" (String "e" k)))
  | JBool false => String "f" (String "a" (String "l" (String "s" (String "e" k))))
  | JNum n => pretty n +:+ k
  | JStr s => write_string s k
  | JArr l => String "[" (write_seq write "]" l k)
  | JObj props =>
      String "{"
        (write_seq (fun kv k' => write_string (fst kv) (String ":" (write (snd kv) k')))
           "}" props k)
  end.

(** The number of nodes of a tree. *)
Fixpoint size (v : json) : nat :=
  match v with
  | JArr l => S (foldr (fun x n => (size x + n)%nat) 0%nat l)
  | JObj props => S (foldr (fun kv n => (size (snd kv) + n)%nat) 0%nat props)
  | _ => 1
  end.

Definition stringify (v : json) : string := write v "".

Definition unescape (e : ascii) : option ascii :=
  if Ascii.eqb e dquote then Some dquote
  else if Ascii.eqb e backslash then Some backslash
  else if Ascii.eqb e "/" then Some "/"%char
  else if Ascii.eqb e "b" then Some "008"%char
  else if Ascii.eqb e "t" then Some "009"%char
  else if Ascii.eqb e "n" then Some "010"%char
  else if Ascii.eqb e "f" then Some "012"%char
  else if Ascii.eqb e "r" then Some "013"%char
  else None.

(** Reads the characters of a string literal up to its closing quote. *)
Fixpoint read_chars (s : string) : option (string * string) :=
  match s with
  | EmptyString => None
  | String c s' =>
      if Ascii.eqb c dquote then Some (EmptyString, s')
      else if Ascii.eqb c backslash then
        match s' with
        | String e s'' =>
            if Ascii.eqb e "u" then
              match s'' with
              | String h3 (String h2 (String h1 (String h0 s3))) =>
                  a ← hex_value h3; b ← hex_value h2; c1 ← hex_value h1; d ← hex_value h0;
                  let code := (((a * 16 + b) * 16 + c1) * 16 + d)%N in
                  if (code <? 256)%N then
                    '(str, r) ← read_chars s3; Some (String (ascii_of_N code) str, r)
                  else None
              | _ => None
              end
            else x ← unescape e; '(str, r) ← read_chars s''; Some (String x str, r)
        | EmptyString => None
        end
      else if (N_of_ascii c <? 32)%N then None
      else '(str, r) ← read_chars s'; Some (String c str, r)
  end.

Definition is_digit (c : ascii) : bool :=
  ((48 <=? N_of_ascii c) && (N_of_ascii c <=? 57))%N.

Definition digit_value (c : ascii) : Z := Z.of_N (N_of_ascii c) - 48.

Fixpoint read_number (acc : Z) (s : string) : Z * string :=
  match s with
  | String c s' => if is_digit c then read_number (10 * acc + digit_value c) s' else (acc, s)
  | EmptyString => (acc, s)
  end.

Fixpoint strip_prefix (p s : string) : option string :=
  match p, s with
  | EmptyString, _ => Some s
  | String c p', String c' s' => if Ascii.eqb c c' then strip_prefix p' s' else None
  | String _ _, EmptyString => None
  end.

Definition expect (c : ascii) (s : string) : option string :=
  match s with
  | String c' s' => if Ascii.eqb c c' then Some s' else None
  | EmptyString => None
  end.

(** Items separated by commas up to [closer]. *)
Fixpoint parse_seq {A} (item : string → option (A * string)) (closer : ascii)
    (fuel : nat) (s : string) : option (list A * string) :=
  match fuel with
  | O => None
  | S fuel' =>
      '(x, r) ← item s;
      match r with
      | String c r' =>
          if Ascii.eqb c "," then
            '(xs, r'') ← parse_seq item closer fuel' r'; Some (x :: xs, r'')
          else if Ascii.eqb c closer then Some ([x], r')
          else None
      | EmptyString => None
      end
  end.

Definition parse_member (item : string → option (json * string)) (s : string)
  : option ((string * json) * string) :=
  match s with
  | String c s' =>
      if Ascii.eqb c dquote then
        '(key, r) ← read_chars s';
        r' ← expect ":" r;
        '(v, r'') ← item r';
        Some ((key, v), r'')
      else None
  | EmptyString => None
  end.

Fixpoint parse_value (fuel : nat) (s : string) : option (json * string) :=
  match fuel with
  | O => None
  | S f =>
      match s with
      | EmptyString => None
      | String c s' =>
          if Ascii.eqb c dquote then '(str, r) ← read_chars s'; Some (JStr str, r)
          else if Ascii.eqb c "[" then
            match expect "]" s' with
            | Some r => Some (JArr [], r)
            | None => '(l, r) ← parse_seq (parse_value f) "]" f s'; Some (JArr l, r)
            end
          else if Ascii.eqb c "{" then
            match expect "}" s' with
            | Some r => Some (JObj [], r)
            | None =>
                '(l, r) ← parse_seq (parse_member (parse_value f)) "}" f s'; Some (JObj l, r)
            end
          else if Ascii.eqb c "n" then r ← strip_prefix "ull" s'; Some (JNull, r)
          else if Ascii.eqb c "t" then r ← strip_prefix "rue" s'; Some (JBool true, r)
          else if Ascii.eqb c "f" then r ← strip_prefix "alse" s'; Some (JBool false, r)
          else if Ascii.eqb c "-" then
            match s' with
            | String d _ =>
                if is_digit d then let '(n, r) := read_number 0 s' in Some (JNum (- n), r)
                else None
            | EmptyString => None
            end
          else if is_digit c then let '(n, r) := read_number 0 s in Some (JNum n, r)
          else None
      end
  end.

Definition parse (s : string) : completion json :=
  match parse_value (S (String.length s)) s with
  | Some (v, EmptyString) => Return v
  | _ => Throw (Error "Unexpected token in JSON")
  end.

(** Days since the epoch to the proleptic Gregorian date, by 400-year
    eras that start on 1 March. *)
Definition civil_from_days (z : Z) : Z * Z * Z :=
  let z := z + 719468 in
  let era := z / 146097 in
  let doe := z - era * 146097 in
  let yoe := (doe - doe / 1460 + doe / 36524 - doe / 146096) / 365 in
  let doy := doe - (365 * yoe + yoe / 4 - yoe / 100) in
  let mp := (5 * doy + 2) / 153 in
  let d := doy - (153 * mp + 2) / 5 + 1 in
  let m := if mp <? 10 then mp + 3 else mp - 9 in
  (yoe + era * 400 + (if m <=? 2 then 1 else 0), m, d).

Definition days_from_civil (y m d : Z) : Z :=
  let y := y - (if m <=? 2 then 1 else 0) in
  let era := y / 400 in
  let yoe := y - era * 400 in
  let doy := (153 * (if 2 <? m then m - 3 else m + 9) + 2) / 5 + d - 1 in
  let doe := yoe * 365 + yoe / 4 - yoe / 100 + doy in
  era * 146097 + doe - 719468.

(** The [w] low decimal digits of [n], in front of [k]. *)
Fixpoint pad (w : nat) (n : Z) (k : string) : string :=
  match w with
  | O => k
  | S w' => pad w' (n / 10) (String (ascii_of_N (Z.to_N (48 + n mod 10))) k)
  end.

Fixpoint read_digits (w : nat) (acc : Z) (s : string) : option (Z * string) :=
  match w with
  | O => Some (acc, s)
  | S w' =>
      match s with
      | String c s' =>
          if is_digit c then read_digits w' (10 * acc + digit_value c) s' else None
      | EmptyString => None
      end
  end.

Definition write_year (y : Z) (k : string) : string :=
  if (0 <=? y) && (y <=? 9999) then pad 4 y k
  else String (if y <? 0 then "-"%char else "+"%char) (pad 6 (Z.abs y) k).

Definition MS_PER_DAY : Z := 86400000.

Definition iso_string (ms : Z) : string :=
  let t := ms mod MS_PER_DAY in
  let '(y, m, d) := civil_from_days (ms / MS_PER_DAY) in
  write_year y
    (String "-" (pad 2 m
    (String "-" (pad 2 d
    (String "T" (pad 2 (t / 3600000)
    (String ":" (pad 2 (t / 60000 mod 60)
    (String ":" (pad 2 (t / 1000 mod 60)
    (String "." (pad 3 (t mod 1000) "Z")))))))))))).

Definition read_year (s : string) : option (Z * string) :=
  match s with
  | String c s' =>
      if Ascii.eqb c "+" then read_digits 6 0 s'
      else if Ascii.eqb c "-" then
        '(y, r) ← read_digits 6 0 s'; if y =? 0 then None else Some (- y, r)
      else read_digits 4 0 s
  | EmptyString => None
  end.

Definition parse_iso (s : string) : option Z :=
  '(y, s) ← read_year s;
  s ← expect "-" s; '(m, s) ← read_digits 2 0 s;
  s ← expect "-" s; '(d, s) ← read_digits 2 0 s;
  s ← expect "T" s; '(h, s) ← read_digits 2 0 s;
  s ← expect ":" s; '(mi, s) ← read_digits 2 0 s;
  s ← expect ":" s; '(sec, s) ← read_digits 2 0 s;
  s ← expect "." s; '(milli, s) ← read_digits 3 0 s;
  s ← expect "Z" s;
  if String.eqb s ""
     && (1 <=? m) && (m <=? 12) && (1 <=? d) && (d <=? 31)
     && (h <=? 23) && (mi <=? 59) && (sec <=? 59)
  then Some (days_from_civil y m d * MS_PER_DAY
             + h * 3600000 + mi * 60000 + sec * 1000 + milli)
  else None.

(** [Date.parse] on the date-time form; any other text is rejected. *)
Definition date_parse (s : string) : Date :=
  match parse_iso s with
  | Some t => TimeClip t
  | None => InvalidDate
  end.

#[export] Instance runtime : Runtime :=
  {| JSON_stringify := stringify;
     JSON_parse := parse;
     toISOString := iso_string;
     Date_parse := date_parse |}.

End Ref.


(** ** Notions the properties are stated with *)

(** The text [getAIResponse] resolves to, from the completion of its
    [try] block. *)
Definition reply_text (c : completion string) : string :=
  match c with
  | Return s => s
  | Throw (Error message) => "Error: " +:+ message
  | Throw (Thrown _) => fallback_message
  end.

Definition thrown {A} (c : completion A) : list Obs :=
  match c with
  | Return _ => []
  | Throw _ => [ObsLog "AI Response Error:"]
  end.

Definition extra_logs {A} (c : completion A) : list string :=
  match c with
  | Return _ => []
  | Throw _ => ["AI Response Error:"]
  end.

(** No run of the program ends in a rejection. *)
Fixpoint no_raise {A} (p : Prog A) : Prop :=
  match p with
  | Ret _ => True
  | Raise _ => False
  | Fetch _ k => ∀ o, no_raise (k o)
  | ConsoleError _ k => no_raise k
  | DateNow k => ∀ t, no_raise (k t)
  | SetState _ k => no_raise k
  end.

(** No run of the program logs [label]. *)
Fixpoint quiet {A} (label : string) (p : Prog A) : Prop :=
  match p with
  | Ret _ | Raise _ => True
  | Fetch _ k => ∀ o, quiet label (k o)
  | ConsoleError l k => l ≠ label ∧ quiet label k
  | DateNow k => ∀ t, quiet label (k t)
  | SetState _ k => quiet label k
  end.

Inductive Provider := GeminiAPI | GroqAPI | OpenAIAPI.

Definition selected_provider (env : Env) : option Provider :=
  if key_set (VITE_GEMINI_API_KEY env) then Some GeminiAPI
  else if key_set (VITE_GROQ_API_KEY env) then Some GroqAPI
  else if key_set (VITE_OPENAI_API_KEY env) then Some OpenAIAPI
  else None.

Definition provider_request (env : Env) (api : Provider) (messages : list ChatMessage)
  : Request :=
  match api with
  | GeminiAPI => gemini_request messages (key_string (VITE_GEMINI_API_KEY env))
  | GroqAPI => groq_request messages (key_string (VITE_GROQ_API_KEY env))
  | OpenAIAPI => openai_request messages (key_string (VITE_OPENAI_API_KEY env))
  end.

Definition provider_result (api : Provider) : Response → completion string :=
  match api with
  | GeminiAPI => gemini_result
  | GroqAPI => chat_completion_result "Groq"
  | OpenAIAPI => chat_completion_result "OpenAI"
  end.

Definition answer_list (api : Provider) : string :=
  match api with
  | GeminiAPI => "candidates"
  | GroqAPI | OpenAIAPI => "choices"
  end.

(** The ways a provider call fails: the request is rejected, the status
    is not ok, the body cannot be read, or the body holds no candidate
    (no choice). *)
Inductive provider_failure (api : Provider) : completion Response → Prop :=
  | fetch_rejected e : provider_failure api (Throw e)
  | status_not_ok r : ok r = false → provider_failure api (Return r)
  | body_rejected r e :
      ok r = true → json_body r = Throw e → provider_failure api (Return r)
  | no_answer r props :
      ok r = true → json_body r = Return (JObj props) →
      assoc (answer_list api) props = None
      ∨ assoc (answer_list api) props = Some (JArr []) →
      provider_failure api (Return r).

(** The message a submission adds, and the page right after the
    synchronous part of [handleSendMessage]. *)
Definition user_message (w : World) : ChatMessage :=
  {| id := pretty (clock w); text := trim (inputValue (ui w)); isUser := true;
     timestamp := Time (clock w) |}.

Definition submitted (w : World) : World :=
  {| ui := {| messages := messages (ui w) ++ [user_message w];
              inputValue := "";
              isLoading := true |};
     pending := pending w;
     browser := browser w;
     clock := clock w;
     requests := requests w |}.

(** The handler suspended on the request to [api]. *)
Definition suspended (api : Provider) : completion Response → Prog unit :=
  fun o =>
    awaitAIResponse
      (try_catch (response ← lift o; lift (provider_result api response))
         getAIResponse_catch).

(** The page after the suspended handler has run to its end with the
    reply [txt], logging [extra] on the way. *)
Definition finished (txt : string) (extra : list string) (w : World) : World :=
  {| ui := {| messages :=
                messages (ui w)
                ++ [ {| id := pretty (clock w + 1); text := txt; isUser := false;
                        timestamp := Time (clock w) |} ];
              inputValue := inputValue (ui w);
              isLoading := false |};
     pending := pending w;
     browser := {| sessionStorage := sessionStorage (browser w);
                   console := console (browser w) ++ extra |};
     clock := clock w;
     requests := requests w |}.

(** A suspended handler that, however its request settles, appends one
    assistant message and clears [isLoading]. *)
Definition resumes (k : completion Response → Prog unit) : Prop :=
  ∀ o w, ∃ txt extra, exec (k o) w = finished txt extra w.

Definition invariant (w : World) : Prop :=
  (length (pending w) ≤ 1)%nat
  ∧ (isLoading (ui w) = false → pending w = [])
  ∧ Forall (fun rk => resumes (snd rk)) (pending w).

(** ** Example data *)

Module Sample.

(** A tab with nothing stored and the usual five-megabyte quota. *)
Definition fresh_browser : Browser :=
  {| sessionStorage := {| blocked := false; quota := 5242880; items := ∅ |};
     console := [] |}.

(** A tab whose storage accepts no write, as a private window has. *)
Definition full_browser : Browser :=
  {| sessionStorage := {| blocked := false; quota := 0; items := ∅ |};
     console := [] |}.

Definition gemini_env : Env :=
  {| VITE_GEMINI_API_KEY := Some "gemini-key";
     VITE_GROQ_API_KEY := Some "groq-key";
     VITE_OPENAI_API_KEY := None |}.

Definition question : ChatMessage :=
  {| id := "1700000000123"; text := "What is a monad?"; isUser := true;
     timestamp := Time 1700000000123 |}.

Definition answer : ChatMessage :=
  {| id := "1700000002001"; text := "A monoid in the category of endofunctors.";
     isUser := false; timestamp := Time 1700000002000 |}.

(** The page the component shows once mounted at time 1000 on a fresh
    tab. *)
Definition mounted : World :=
  {| ui := {| messages := [welcome_message 1000]; inputValue := ""; isLoading := false |};
     pending := [];
     browser := saveMessagesToStorage (R:=Ref.runtime) [welcome_message 1000] fresh_browser;
     clock := 1000;
     requests := [] |}.

(** A reply of Gemini with one candidate. *)
Definition gemini_reply : Response :=
  {| ok := true; status := 200; statusText := "OK";
     json_body :=
       Return (JObj [("candidates",
                      JArr [JObj [("content",
                                   JObj [("parts", JArr [JObj [("text", JStr " Hello! ")]])])]])]) |}.

(** Gemini out of quota. *)
Definition gemini_refusal : Response :=
  {| ok := false; status := 429; statusText := "Too Many Requests";
     json_body := Return (JObj [("error", JObj [("message", JStr "Quota exceeded")])]) |}.

End Sample.

(** ** What the component renders *)

(** [disabled={!inputValue.trim() || isLoading}] of the submit button. *)
Definition submitDisabled (s : ChatState) : bool :=
  String.eqb (trim (inputValue s)) "" || isLoading s.

(** ** The database connection of the back end

    [src/backend/src/connections/mongo.connection.ts].  The only
    operation that leaves the process is [mongoose.connect]. *)
Module Mongo.

Inductive Prog (A : Type) :=
  | Ret (a : A)
  | Raise (e : exn)
  | Connect (url : string) (k : completion unit → Prog A)
  | ConsoleLog (label : string) (k : Prog A)
  | ConsoleError (label : string) (arg : option json) (k : Prog A).
Arguments Ret {A} a.
Arguments Raise {A} e.
Arguments Connect {A} url k.
Arguments ConsoleLog {A} label k.
Arguments ConsoleError {A} label arg k.

Fixpoint bind {A B} (p : Prog A) (f : A → Prog B) : Prog B :=
  match p with
  | Ret a => f a
  | Raise e => Raise e
  | Connect url k => Connect url (fun o => bind (k o) f)
  | ConsoleLog l k => ConsoleLog l (bind k f)
  | ConsoleError l a k => ConsoleError l a (bind k f)
  end.

Fixpoint try_catch {A} (p : Prog A) (h : exn → Prog A) : Prog A :=
  match p with
  | Ret a => Ret a
  | Raise e => h e
  | Connect url k => Connect url (fun o => try_catch (k o) h)
  | ConsoleLog l k => ConsoleLog l (try_catch k h)
  | ConsoleError l a k => ConsoleError l a (try_catch k h)
  end.

Definition lift {A} (c : completion A) : Prog A :=
  match c with
  | Return a => Ret a
  | Throw e => Raise e
  end.

#[export] Instance Prog_bind : MBind Prog := fun A B f p => bind p f.
#[export] Instance Prog_ret : MRet Prog := fun A a => Ret a.

(** [await mongoose.connect(url)] *)
Definition mongoose_connect (url : string) : Prog unit := Connect url lift.

(** [class MongoConnection] *)
Record MongoConnection := { connectUrl : string }.

(** The constructor: [process.env.MONGODB_URI ?? '']. *)
Definition new (MONGODB_URI : option string) : MongoConnection :=
  {| connectUrl := default "" MONGODB_URI |}.

(** [error.message] of a caught value. *)
Definition message_of (error : exn) : completion (option json) :=
  match error with
  | Error message => Return (Some (JStr message))
  | Thrown v => get (Some v) "message"
  end.

(** The [catch] block of [connect]. *)
Definition connect_catch (error : exn) : Prog unit :=
  logged ← lift (message_of error);
  ConsoleError "MongoDB connection error:" logged
    (message ← lift (message_of error);
     Raise (Error ("Error connecting to MongoDB: "
                   +:+ (if truthy message then from_option ToString "" message
                        else "Unknown error")))).

Definition connect (this : MongoConnection) : Prog unit :=
  try_catch
    (if String.eqb (connectUrl this) ""
     then Raise (Error "MONGODB_URI is not defined in environment variables")
     else
       mongoose_connect (connectUrl this);;
       ConsoleLog "Connected to MongoDB" (Ret tt))
    connect_catch.

(** What a run shows to the outside. *)
Inductive Obs :=
  | Connected (url : string)
  | Logged (label : string)
  | Errored (label : string) (arg : option json).

(** Runs a program against a driver that settles the connection to
    [url] with [mongoose url]. *)
Fixpoint run {A} (mongoose : string → completion unit) (p : Prog A)
  : completion A * list Obs :=
  match p with
  | Ret a => (Return a, [])
  | Raise e => (Throw e, [])
  | Connect url k =>
      let '(r, t) := run mongoose (k (mongoose url)) in (r, Connected url :: t)
  | ConsoleLog l k => let '(r, t) := run mongoose k in (r, Logged l :: t)
  | ConsoleError l a k => let '(r, t) := run mongoose k in (r, Errored l a :: t)
  end.

Definition attempts (t : list Obs) : list string :=
  omap (fun o => match o with Connected url => Some url | _ => None end) t.

End Mongo.


(** ** More example data *)
Module Demo.

Definition openai_env : Env :=
  {| VITE_GEMINI_API_KEY := Some ""; VITE_GROQ_API_KEY := None;
     VITE_OPENAI_API_KEY := Some "sk-1" |}.

Definition no_key_env : Env :=
  {| VITE_GEMINI_API_KEY := None; VITE_GROQ_API_KEY := None;
     VITE_OPENAI_API_KEY := None |}.

(** A reply of OpenAI with one choice. *)
Definition openai_reply : Response :=
  {| ok := true; status := 200; statusText := "OK";
     json_body :=
       Return (JObj [("choices",
                      JArr [JObj [("message", JObj [("content", JStr "Sure. ")])]])]) |}.

End Demo.
(** * Properties *)

(** ** Format translation *)

Lemma lookup_map {A B} (f : A → B) (l : list A) (i : nat) :
  map f l !! i = f <$> l !! i.
Proof. revert i. induction l as [|x l IH]; intros [|i]; cbn; auto. Qed.

(** C4. [convertToOpenAIFormat] returns n+1 messages: first the fixed
    system-role instruction, then the input messages in their order,
    each with role 'user' exactly when [isUser] holds and 'assistant'
    otherwise, and with its text as content. *)
Theorem convertToOpenAIFormat_spec (messages : list ChatMessage) :
  length (convertToOpenAIFormat messages) = S (length messages)
  ∧ convertToOpenAIFormat messages !! 0%nat
    = Some {| OpenAI.role := "system"; OpenAI.content := systemInstruction |}
  ∧ ∀ (i : nat) (msg : ChatMessage),
      messages !! i = Some msg →
      convertToOpenAIFormat messages !! S i
      = Some {| OpenAI.role := if isUser msg then "user" else "assistant";
                OpenAI.content := text msg |}.
Proof.
  unfold convertToOpenAIFormat. split; [|split].
  - cbn. by rewrite length_map.
  - reflexivity.
  - intros i msg Hi. rewrite lookup_cons, lookup_map, Hi. reflexivity.
Qed.

Lemma convertToOpenAIFormat_spec_witness :
  convertToOpenAIFormat
    [ {| id := "7"; text := "why?"; isUser := true; timestamp := Time 7 |};
      {| id := "8"; text := "because"; isUser := false; timestamp := Time 8 |} ] !! 2%nat
  = Some {| OpenAI.role := "assistant"; OpenAI.content := "because" |}.
Proof.
  pose proof (convertToOpenAIFormat_spec
    [ {| id := "7"; text := "why?"; isUser := true; timestamp := Time 7 |};
      {| id := "8"; text := "because"; isUser := false; timestamp := Time 8 |} ])
    as (_ & _ & H).
  exact (H 1%nat {| id := "8"; text := "because"; isUser := false; timestamp := Time 8 |}
           eq_refl).
Defined.

(** The loop of [convertToGeminiFormat] as a recursion on the messages
    still to visit. *)
Lemma gemini_push_app (acc : list Gemini.Message) (first : bool) (m : ChatMessage) :
  gemini_push (acc, first) m
  = (acc ++ [if isUser m then gemini_user first m else gemini_model m],
     if isUser m then false else first).
Proof. unfold gemini_push. by destruct (isUser m). Qed.

Lemma gemini_fold (l : list ChatMessage) (acc : list Gemini.Message) (first : bool) :
  fst (fold_left gemini_push l (acc, first))
  = acc ++ fst (fold_left gemini_push l ([], first)).
Proof.
  revert acc first. induction l as [|m l IH]; intros acc first.
  - simpl. by rewrite app_nil_r.
  - change (fold_left gemini_push (m :: l) (acc, first))
      with (fold_left gemini_push l (gemini_push (acc, first) m)).
    change (fold_left gemini_push (m :: l) ([], first))
      with (fold_left gemini_push l (gemini_push ([], first) m)).
    rewrite !gemini_push_app, IH, (IH ([] ++ _)). by rewrite <- app_assoc.
Qed.

Lemma gemini_cons (m : ChatMessage) (l : list ChatMessage) (first : bool) :
  fst (fold_left gemini_push (m :: l) ([], first))
  = (if isUser m then gemini_user first m else gemini_model m)
    :: fst (fold_left gemini_push l ([], if isUser m then false else first)).
Proof.
  change (fold_left gemini_push (m :: l) ([], first))
    with (fold_left gemini_push l (gemini_push ([], first) m)).
  by rewrite gemini_push_app, gemini_fold.
Qed.

Lemma gemini_lookup (l : list ChatMessage) (first : bool) (i : nat) (msg : ChatMessage) :
  l !! i = Some msg →
  fst (fold_left gemini_push l ([], first)) !! i
  = Some (if isUser msg
          then gemini_user (first && forallb (fun m => negb (isUser m)) (take i l)) msg
          else gemini_model msg).
Proof.
  revert first i. induction l as [|m l IH]; intros first i Hi; [done|].
  rewrite gemini_cons. destruct i as [|i]; simpl in Hi.
  - injection Hi as ->. simpl. destruct (isUser msg); [|done]. by rewrite andb_true_r.
  - rewrite lookup_cons. rewrite (IH _ i Hi). simpl.
    destruct (isUser m); simpl; [|done]. by rewrite andb_false_r.
Qed.

Lemma gemini_length (l : list ChatMessage) (first : bool) :
  length (fst (fold_left gemini_push l ([], first))) = length l.
Proof.
  revert first. induction l as [|m l IH]; intros first; [done|].
  rewrite gemini_cons. simpl. by rewrite IH.
Qed.

(** C5. [convertToGeminiFormat] returns exactly n messages in the input
    order: a non-user message becomes role 'model' with its text
    unchanged, a user message becomes role 'user', and the system
    instruction is put in front of the text of the first user message
    only; the other user messages keep their text. *)
Theorem convertToGeminiFormat_spec (messages : list ChatMessage) :
  length (convertToGeminiFormat messages) = length messages
  ∧ ∀ (i : nat) (msg : ChatMessage),
      messages !! i = Some msg →
      (isUser msg = false →
         convertToGeminiFormat messages !! i
         = Some {| Gemini.role := "model";
                   Gemini.parts := [ {| Gemini.text := text msg |} ] |})
      ∧ (isUser msg = true →
         (∀ (j : nat) (m : ChatMessage),
             (j < i)%nat → messages !! j = Some m → isUser m = false) →
         convertToGeminiFormat messages !! i
         = Some {| Gemini.role := "user";
                   Gemini.parts :=
                     [ {| Gemini.text :=
                            systemInstruction +:+ LF +:+ LF +:+ "User: " +:+ text msg |} ] |})
      ∧ (isUser msg = true →
         (∃ (j : nat) (m : ChatMessage),
             (j < i)%nat ∧ messages !! j = Some m ∧ isUser m = true) →
         convertToGeminiFormat messages !! i
         = Some {| Gemini.role := "user";
                   Gemini.parts := [ {| Gemini.text := text msg |} ] |}).
Proof.
  unfold convertToGeminiFormat. split; [apply gemini_length|].
  intros i msg Hi. rewrite (gemini_lookup _ _ _ _ Hi). cbn [andb].
  unfold gemini_user, gemini_model.
  split; [|split].
  - intros ->. done.
  - intros -> Hfirst.
    replace (forallb _ (take i messages)) with true; [done|].
    symmetry. apply forallb_forall. intros m Hm.
    apply list_elem_of_In, list_elem_of_lookup in Hm as [j Hj].
    apply lookup_take_Some in Hj as [Hj Hlt].
    by rewrite (Hfirst j m Hlt Hj).
  - intros -> (j & m & Hlt & Hj & Hm).
    replace (forallb _ (take i messages)) with false; [done|].
    symmetry. apply not_true_is_false. intros Hall.
    rewrite forallb_forall in Hall.
    assert (negb (isUser m) = true) as Hn.
    { apply Hall, list_elem_of_In, list_elem_of_lookup. exists j.
      by apply lookup_take_Some. }
    by rewrite Hm in Hn.
Qed.

Lemma convertToGeminiFormat_spec_witness :
  convertToGeminiFormat
    [ {| id := "1"; text := "welcome"; isUser := false; timestamp := Time 1 |};
      {| id := "7"; text := "why?"; isUser := true; timestamp := Time 7 |};
      {| id := "9"; text := "and?"; isUser := true; timestamp := Time 9 |} ] !! 2%nat
  = Some {| Gemini.role := "user"; Gemini.parts := [ {| Gemini.text := "and?" |} ] |}.
Proof.
  pose proof (convertToGeminiFormat_spec
    [ {| id := "1"; text := "welcome"; isUser := false; timestamp := Time 1 |};
      {| id := "7"; text := "why?"; isUser := true; timestamp := Time 7 |};
      {| id := "9"; text := "and?"; isUser := true; timestamp := Time 9 |} ])
    as [_ H].
  destruct (H 2%nat {| id := "9"; text := "and?"; isUser := true; timestamp := Time 9 |}
              eq_refl) as (_ & _ & H3).
  apply H3; [reflexivity|].
  exists 1%nat, {| id := "7"; text := "why?"; isUser := true; timestamp := Time 7 |}.
  split; [lia|]. split; reflexivity.
Defined.

(** ** The provider calls *)

Lemma bind_lift {A B} (c : completion A) (g : A → completion B) :
  bind (lift c) (fun r => lift (g r)) = lift (c ≫= g).
Proof. by destruct c. Qed.

Lemma try_catch_lift (c : completion string) :
  try_catch (lift c) getAIResponse_catch
  = match c with
    | Return s => Ret s
    | Throw e => ConsoleError "AI Response Error:" (Ret (reply_text c))
    end.
Proof. destruct c as [s|[m|v]]; reflexivity. Qed.

Lemma no_raise_bind {A B} (p : Prog A) (f : A → Prog B) :
  no_raise p → (∀ a, no_raise (f a)) → no_raise (bind p f).
Proof. induction p; simpl; intros Hp Hf; auto; done. Qed.

Lemma no_raise_try_catch {A} (p : Prog A) (h : exn → Prog A) :
  (∀ e, no_raise (h e)) → no_raise (try_catch p h).
Proof. induction p; simpl; intros Hh; auto. Qed.

Lemma quiet_bind {A B} (l : string) (p : Prog A) (f : A → Prog B) :
  quiet l p → (∀ a, quiet l (f a)) → quiet l (bind p f).
Proof. induction p; simpl; intros Hp Hf; auto. destruct Hp; auto. Qed.

Lemma quiet_try_catch {A} (l : string) (p : Prog A) (h : exn → Prog A) :
  quiet l p → (∀ e, quiet l (h e)) → quiet l (try_catch p h).
Proof. induction p; simpl; intros Hp Hh; auto. destruct Hp; auto. Qed.

(** A handler is not entered by a program that never rejects. *)
Lemma quiet_try_catch_no_raise {A} (l : string) (p : Prog A) (h : exn → Prog A) :
  no_raise p → quiet l p → quiet l (try_catch p h).
Proof. induction p; simpl; intros Hn Hp; auto; [done|]. destruct Hp; auto. Qed.

Lemma quiet_try_finally {A} (l : string) (p : Prog A) (f : Prog unit) :
  quiet l p → quiet l f → quiet l (try_finally p f).
Proof.
  induction p; simpl; intros Hp Hf; auto.
  - by apply quiet_bind.
  - by apply quiet_bind.
  - destruct Hp; auto.
Qed.

Lemma quiet_lift {A} (l : string) (c : completion A) : quiet l (lift c).
Proof. by destruct c. Qed.

Lemma no_raise_getAIResponse (env : Env) (messages : list ChatMessage) :
  no_raise (getAIResponse env messages).
Proof. apply no_raise_try_catch. by intros [m|v]. Qed.

Lemma quiet_provider (l : string) (req : Request) (g : Response → completion string) :
  quiet l (response ← fetch req; lift (g response)).
Proof.
  unfold mbind, Prog_bind, fetch. simpl. intros o. rewrite bind_lift. apply quiet_lift.
Qed.

Lemma quiet_getAIResponse (l : string) (env : Env) (messages : list ChatMessage) :
  l ≠ "AI Response Error:" → quiet l (getAIResponse env messages).
Proof.
  intros Hl. apply quiet_try_catch.
  - unfold getAIResponse_try.
    repeat (case_match; [apply quiet_provider|]). done.
  - intros [m|v]; simpl; auto.
Qed.

Lemma quiet_awaitAIResponse (p : Prog string) :
  no_raise p → quiet "Failed to get AI response:" p →
  quiet "Failed to get AI response:" (awaitAIResponse p).
Proof.
  intros Hn Hq. unfold awaitAIResponse. apply quiet_try_finally; [|done].
  apply quiet_try_catch_no_raise.
  - apply no_raise_bind; [done|]. intros a t t'. done.
  - apply quiet_bind; [done|]. intros a t t'. done.
Qed.

Lemma quiet_handleSendMessage (env : Env) (s : ChatState) :
  quiet "Failed to get AI response:" (handleSendMessage env s).
Proof.
  unfold handleSendMessage. case_match; [done|].
  simpl. intros t t'. apply quiet_awaitAIResponse.
  - apply no_raise_getAIResponse.
  - by apply quiet_getAIResponse.
Qed.

Section Run.
Variables (net : Request → completion Response) (now : Z).

Lemma run_lift {A} (c : completion A) (st : ChatState) :
  run net now (lift c) st = (c, st, []).
Proof. by destruct c. Qed.

(** The [catch] block of [getAIResponse] turns every completion of the
    [try] block into a resolved string. *)
Lemma run_getAIResponse_catch (p : Prog string) (st : ChatState) :
  run net now (try_catch p getAIResponse_catch) st
  = let '(c, st', t) := run net now p st in (Return (reply_text c), st', t ++ thrown c).
Proof.
  revert st. induction p as [a|e|req k IH|l k IH|k IH|u k IH]; intros st; simpl.
  - reflexivity.
  - by destruct e.
  - rewrite IH. by destruct (run net now (k (net req)) st) as [[c st'] t].
  - rewrite IH. by destruct (run net now k st) as [[c st'] t].
  - apply IH.
  - apply IH.
Qed.

Lemma run_provider (req : Request) (g : Response → completion string) (st : ChatState) :
  run net now (response ← fetch req; lift (g response)) st
  = (net req ≫= g, st, [ObsFetch req]).
Proof.
  unfold mbind at 1, Prog_bind, fetch. simpl. by rewrite bind_lift, run_lift.
Qed.

Lemma fetches_thrown {A} (c : completion A) (t : list Obs) :
  fetches (t ++ thrown c) = fetches t.
Proof.
  unfold fetches. rewrite omap_app. destruct c; simpl; by rewrite app_nil_r.
Qed.

(** C1. [getAIResponse] sends the request to exactly one provider, the
    first of Gemini, Groq and OpenAI whose key is set (the Gemini key
    wins even if the others are set too); with no key set it resolves
    to the explanatory text and calls no provider. *)
Theorem getAIResponse_selects_provider (env : Env) (messages : list ChatMessage)
    (st : ChatState) :
  let geminiKey := VITE_GEMINI_API_KEY env in
  let groqKey := VITE_GROQ_API_KEY env in
  let openaiKey := VITE_OPENAI_API_KEY env in
  let out := run net now (getAIResponse env messages) st in
  (key_set geminiKey = true →
     fetches out.2 = [gemini_request messages (key_string geminiKey)])
  ∧ (key_set geminiKey = false → key_set groqKey = true →
     fetches out.2 = [groq_request messages (key_string groqKey)])
  ∧ (key_set geminiKey = false → key_set groqKey = false → key_set openaiKey = true →
     fetches out.2 = [openai_request messages (key_string openaiKey)])
  ∧ (key_set geminiKey = false → key_set groqKey = false → key_set openaiKey = false →
     out.1.1 = Return "Error: No API key found. Please set VITE_GEMINI_API_KEY, VITE_GROQ_API_KEY, or VITE_OPENAI_API_KEY in your environment variables."
     ∧ fetches out.2 = []).
Proof.
  intros geminiKey groqKey openaiKey out. subst out.
  unfold getAIResponse. rewrite run_getAIResponse_catch.
  unfold getAIResponse_try. fold geminiKey groqKey openaiKey.
  split; [|split; [|split]].
  - intros ->. unfold getGeminiResponse. rewrite run_provider. simpl.
    apply (fetches_thrown _ [ObsFetch _]).
  - intros -> ->. unfold getGroqResponse. rewrite run_provider. simpl.
    apply (fetches_thrown _ [ObsFetch _]).
  - intros -> -> ->. unfold getOpenAIResponse. rewrite run_provider. simpl.
    apply (fetches_thrown _ [ObsFetch _]).
  - intros -> -> ->. split; reflexivity.
Qed.

Lemma run_getAIResponse_try (env : Env) (messages : list ChatMessage) (st : ChatState) :
  run net now (getAIResponse_try env messages) st
  = match selected_provider env with
    | Some api =>
        (net (provider_request env api messages) ≫= provider_result api, st,
         [ObsFetch (provider_request env api messages)])
    | None => (Throw (Error no_key_message), st, [])
    end.
Proof.
  unfold getAIResponse_try, selected_provider.
  repeat (case_match; [apply run_provider|]). reflexivity.
Qed.

Lemma run_quiet {A} (l : string) (p : Prog A) (st : ChatState) :
  quiet l p → l ∉ logs (run net now p st).2.
Proof.
  revert st. induction p as [a|e|req k IH|l' k IH|k IH|u k IH]; intros st; simpl.
  - intros _. apply not_elem_of_nil.
  - intros _. apply not_elem_of_nil.
  - intros Hq. specialize (IH (net req) st (Hq _)).
    by destruct (run net now (k (net req)) st) as [[c st'] t].
  - intros [Hl Hq]. specialize (IH st Hq).
    destruct (run net now k st) as [[c st'] t]. simpl in *.
    unfold logs in *. simpl. rewrite not_elem_of_cons. done.
  - intros Hq. by apply IH.
  - intros Hq. by apply IH.
Qed.

(** C9. [getAIResponse] always resolves to a string: what its [try]
    block returns, or "Error: " followed by the message of the [Error]
    it threw, or the fixed fallback text for any other thrown value.
    The handler that awaits it never enters its own [catch] block. *)
Theorem getAIResponse_total (env : Env) (messages : list ChatMessage) (st : ChatState) :
  (∃ (c : completion string) (s : string) (t : list Obs),
      (run net now (getAIResponse_try env messages) st).1.1 = c
      ∧ run net now (getAIResponse env messages) st = (Return s, st, t)
      ∧ match c with
        | Return s' => s = s'
        | Throw (Error message) => s = "Error: " +:+ message
        | Throw (Thrown _) => s = "Error: Could not fetch response. Please try again later."
        end)
  ∧ (∀ s : ChatState,
       "Failed to get AI response:"
       ∉ logs (run net now (handleSendMessage env s) st).2).
Proof.
  split.
  - unfold getAIResponse. rewrite run_getAIResponse_catch.
    destruct (run net now (getAIResponse_try env messages) st) as [[c st'] t] eqn:E.
    rewrite run_getAIResponse_try in E.
    assert (st' = st) as -> by (destruct (selected_provider env); by inversion E).
    exists c, (reply_text c), (t ++ thrown c).
    split; [done|]. split; [done|]. by destruct c as [s|[m|v]].
  - intros s. apply run_quiet, quiet_handleSendMessage.
Qed.

End Run.

(** ** Session storage *)

Section Storage.
Context {R : Runtime}.

(** C10. [loadMessagesFromStorage] returns in every case, and when
    nothing is stored under the key, or reading or parsing the stored
    value throws (or anything else in its [try] block does), the result
    is exactly one welcome message with id '1' and [isUser] false. *)
Theorem loadMessagesFromStorage_welcome (now : Z) (b : Browser) :
  getItem (sessionStorage b) AI_CHAT_STORAGE_KEY = Return None
  ∨ (∃ e, getItem (sessionStorage b) AI_CHAT_STORAGE_KEY = Throw e)
  ∨ (∃ s e, getItem (sessionStorage b) AI_CHAT_STORAGE_KEY = Return (Some s)
            ∧ JSON_parse s = Throw e)
  ∨ (∃ e, loadMessagesFromStorage_try b = Throw e) →
  ∃ welcome : ChatMessage,
    (loadMessagesFromStorage now b).1 = [object_of_message welcome]
    ∧ mapM as_ChatMessage (loadMessagesFromStorage now b).1 = Some [welcome]
    ∧ id welcome = "1" ∧ isUser welcome = false.
Proof.
  intros H. exists (welcome_message now).
  assert ((loadMessagesFromStorage now b).1 = [object_of_message (welcome_message now)])
    as ->; [|done].
  unfold loadMessagesFromStorage, loadMessagesFromStorage_try.
  destruct H as [->|[[e ->]|[(s & e & -> & Hs)|[e He]]]]; simpl; [done..| |].
  - destruct (String.eqb s ""); [done|]. by rewrite Hs.
  - fold (loadMessagesFromStorage_try b). by rewrite He.
Qed.

Lemma json_wf_messages (msgs : list ChatMessage) :
  json_wf (JArr (map ChatMessage_toJSON msgs)) = true.
Proof.
  simpl. induction msgs as [|m msgs IH]; [done|].
  simpl. rewrite IH. by destruct (timestamp m).
Qed.

Section Laws.
Hypothesis laws : RuntimeLaws R.

Lemma revive_message (m : ChatMessage) :
  valid_Date (timestamp m) →
  revive (ChatMessage_toJSON m) = Return (object_of_message m).
Proof.
  destruct m as [i t u [ms|]]; simpl; [|done]. intros Hms.
  unfold revive. simpl. by rewrite (Date_parse_toISOString R laws).
Qed.

Lemma map_revive_messages (msgs : list ChatMessage) :
  Forall (fun m => valid_Date (timestamp m)) msgs →
  map_revive (map ChatMessage_toJSON msgs) = Return (map object_of_message msgs).
Proof.
  induction 1 as [|m msgs Hm _ IH]; [done|].
  cbn [map map_revive]. rewrite (revive_message m Hm).
  unfold mbind at 1, completion_bind at 1. cbn [cbind]. by rewrite IH.
Qed.

Lemma as_ChatMessage_object (msgs : list ChatMessage) :
  mapM as_ChatMessage (map object_of_message msgs) = Some msgs.
Proof.
  induction msgs as [|m msgs IH]; [done|].
  simpl. rewrite IH. by destruct m.
Qed.

(** C3, amended.  When the write to session storage succeeds, loading
    after saving a list of messages with valid timestamps returns the
    list: the same length and order, and at every position the same
    id, text, isUser and timestamp. *)
Theorem storage_round_trip (messages : list ChatMessage) (now : Z) (b : Browser)
    (st : Storage) :
  Forall (fun m => valid_Date (timestamp m)) messages →
  setItem (sessionStorage b) AI_CHAT_STORAGE_KEY
    (JSON_stringify (JArr (map ChatMessage_toJSON messages))) = Return st →
  (loadMessagesFromStorage now (saveMessagesToStorage messages b)).1
  = map object_of_message messages
  ∧ mapM as_ChatMessage
      (loadMessagesFromStorage now (saveMessagesToStorage messages b)).1
    = Some messages.
Proof.
  intros Hvalid Hset.
  assert ((loadMessagesFromStorage now (saveMessagesToStorage messages b)).1
          = map object_of_message messages) as ->;
    [|split; [done|apply as_ChatMessage_object]].
  unfold saveMessagesToStorage. rewrite Hset.
  unfold setItem in Hset.
  destruct (blocked (sessionStorage b)) eqn:Hb; [done|].
  case_match; [done|]. injection Hset as <-.
  unfold loadMessagesFromStorage, loadMessagesFromStorage_try, getItem. simpl.
  rewrite lookup_insert_eq. simpl.
  destruct (String.eqb_spec (JSON_stringify (JArr (map ChatMessage_toJSON messages))) "")
    as [He|_];
    [by apply (JSON_stringify_nonempty R laws) in He; [|apply json_wf_messages]|].
  rewrite (JSON_parse_stringify R laws) by apply json_wf_messages.
  simpl. by rewrite map_revive_messages.
Qed.

End Laws.
End Storage.

(** ** The [Chat] component *)

Lemma exec_awaitAIResponse (c : completion string) (w : World) :
  exec (awaitAIResponse (try_catch (lift c) getAIResponse_catch)) w
  = finished (reply_text c) (extra_logs c) w.
Proof.
  rewrite try_catch_lift. destruct w as [[ms iv il] ps [st co] cl rq].
  destruct c as [s|e]; unfold finished; simpl; by rewrite ?app_nil_r.
Qed.

Lemma exec_suspended (api : Provider) (o : completion Response) (w : World) :
  exec (suspended api o) w
  = finished (reply_text (o ≫= provider_result api))
      (extra_logs (o ≫= provider_result api)) w.
Proof.
  unfold suspended. unfold mbind at 1, Prog_bind.
  rewrite bind_lift. apply exec_awaitAIResponse.
Qed.

Lemma resumes_suspended (api : Provider) : resumes (suspended api).
Proof. intros o w. eexists _, _. apply exec_suspended. Qed.

Lemma getAIResponse_selected (env : Env) (messages : list ChatMessage) :
  getAIResponse env messages
  = match selected_provider env with
    | Some api =>
        Fetch (provider_request env api messages)
          (fun o => try_catch (response ← lift o; lift (provider_result api response))
                      getAIResponse_catch)
    | None => ConsoleError "AI Response Error:" (Ret ("Error: " +:+ no_key_message))
    end.
Proof.
  unfold getAIResponse, getAIResponse_try, selected_provider.
  repeat (case_match; [reflexivity|]). reflexivity.
Qed.

(** What [handleSendMessage] does up to its first suspension. *)
Lemma exec_handleSendMessage (env : Env) (w : World) :
  exec (handleSendMessage env (ui w)) w
  = if String.eqb (trim (inputValue (ui w))) "" || isLoading (ui w) then w
    else match selected_provider env with
         | Some api =>
             sent (provider_request env api (messages (ui w) ++ [user_message w]))
               (suspended api) (submitted w)
         | None =>
             finished ("Error: " +:+ no_key_message) ["AI Response Error:"] (submitted w)
         end.
Proof.
  unfold handleSendMessage. case_match; [done|].
  cbn [mbind Prog_bind bind setInputValue setIsLoading setMessages Date_now exec].
  rewrite getAIResponse_selected.
  destruct w as [[ms iv il] ps [st co] cl rq].
  destruct (selected_provider env) as [api|]; reflexivity.
Qed.

Section Component.
Context {R : Runtime} (env : Env).

Lemma ui_after_render (before w : World) : ui (after_render before w) = ui w.
Proof.
  unfold after_render, save_effect. case_decide; [done|]. by destruct (messages (ui w)).
Qed.

Lemma pending_after_render (before w : World) :
  pending (after_render before w) = pending w.
Proof.
  unfold after_render, save_effect. case_decide; [done|]. by destruct (messages (ui w)).
Qed.

Lemma requests_after_render (before w : World) :
  requests (after_render before w) = requests w.
Proof.
  unfold after_render, save_effect. case_decide; [done|]. by destruct (messages (ui w)).
Qed.

Lemma clock_after_render (before w : World) :
  clock (after_render before w) = clock w.
Proof.
  unfold after_render, save_effect. case_decide; [done|]. by destruct (messages (ui w)).
Qed.

Lemma invariant_after_render (before w : World) :
  invariant w → invariant (after_render before w).
Proof.
  unfold invariant. by rewrite ui_after_render, pending_after_render.
Qed.

Lemma invariant_handleSendMessage (w : World) :
  invariant w → invariant (exec (handleSendMessage env (ui w)) w).
Proof.
  intros Hw. rewrite exec_handleSendMessage.
  destruct (String.eqb _ _); [exact Hw|].
  destruct (isLoading (ui w)) eqn:Hl; [exact Hw|]. simpl.
  destruct Hw as (Hlen & Hidle & Hres). rewrite Hl in Hidle.
  specialize (Hidle eq_refl).
  destruct (selected_provider env) as [api|]; unfold invariant; simpl; rewrite Hidle; simpl.
  - split; [lia|]. split; [done|]. repeat constructor. apply resumes_suspended.
  - split; [lia|]. split; [done|]. constructor.
Qed.

Lemma invariant_step (w : World) (e : Event) :
  invariant w → invariant (step env w e).
Proof.
  intros Hw. destruct e as [v| |key shiftKey| |i o|dt]; simpl.
  - exact Hw.
  - by apply invariant_after_render, invariant_handleSendMessage.
  - apply invariant_after_render. unfold handleKeyPress.
    destruct (_ && _); [by apply invariant_handleSendMessage|done].
  - by apply invariant_after_render.
  - destruct (pending w !! i) as [[req k]|] eqn:Hi; [|done].
    apply invariant_after_render.
    destruct Hw as (Hlen & Hidle & Hres).
    destruct (pending w) as [|rk [|rk' ps]] eqn:Hp; [done| |simpl in Hlen; lia].
    destruct i as [|i]; [|done]. injection Hi as ->.
    apply Forall_inv in Hres.
    match goal with
    | |- context [exec (k o) ?w0] => destruct (Hres o w0) as (txt & extra & E)
    end.
    cbn [snd] in E. rewrite E. unfold invariant. simpl. split; [lia|]. split; [done|constructor].
  - exact Hw.
Qed.

Lemma invariant_mount (now : Z) (b : Browser) (w : World) :
  mount now b = Some w → invariant w.
Proof.
  unfold mount. destruct (loadMessagesFromStorage now b) as [loaded b'].
  destruct (mapM as_ChatMessage loaded) as [msgs|]; [|done]. simpl.
  intros [= <-]. unfold invariant, save_effect. simpl.
  destruct msgs; simpl; (split; [lia|split; [done|constructor]]).
Qed.

Lemma reachable_invariant (w : World) : reachable env w → invariant w.
Proof.
  induction 1 as [now b w Hm|w e _ IH]; [by eapply invariant_mount|by apply invariant_step].
Qed.

Lemma step_settle (w : World) (i : nat) (o : completion Response) (req : Request)
    (k : completion Response → Prog unit) :
  invariant w → pending w !! i = Some (req, k) →
  ∃ txt extra,
    step env w (Settle i o)
    = after_render w (finished txt extra (set_pending [] w)).
Proof.
  intros (Hlen & _ & Hres) Hi. simpl. rewrite Hi.
  destruct (pending w) as [|rk [|rk' ps]] eqn:Hp; [done| |simpl in Hlen; lia].
  destruct i as [|i]; [|done]. injection Hi as ->.
  apply Forall_inv in Hres. cbn [snd] in Hres.
  destruct (Hres o (set_pending [] w)) as (txt & extra & E).
  exists txt, extra. cbn [delete list_delete]. by rewrite E.
Qed.

(** While a reachable page is loading, a request is in flight. *)
Lemma reachable_loading_pending (w : World) :
  reachable env w → isLoading (ui w) = true → pending w ≠ [].
Proof.
  intros Hw. induction Hw as [now b w Hm|w e Hw IH].
  - unfold mount in Hm. destruct (loadMessagesFromStorage now b) as [loaded b'].
    destruct (mapM as_ChatMessage loaded) as [msgs|]; [|done]. cbn in Hm.
    injection Hm as <-. unfold save_effect. cbn. by destruct msgs.
  - pose proof (reachable_invariant w Hw) as Hinv.
    destruct e as [v| |key shiftKey| |i o|dt]; cbn [step]; try exact IH.
    + rewrite ui_after_render, pending_after_render, exec_handleSendMessage.
      destruct (_ || _); [exact IH|].
      destruct (selected_provider env); cbn; [|done].
      intros _. by destruct (pending w).
    + rewrite ui_after_render, pending_after_render. unfold handleKeyPress.
      destruct (_ && _); [|exact IH]. rewrite exec_handleSendMessage.
      destruct (_ || _); [exact IH|].
      destruct (selected_provider env); cbn; [|done].
      intros _. by destruct (pending w).
    + by rewrite ui_after_render, pending_after_render.
    + destruct (pending w !! i) as [[req k]|] eqn:Hi; [|exact IH].
      destruct (step_settle w i o req k Hinv Hi) as (txt & extra & E).
      cbn [step] in E. rewrite Hi in E. rewrite E, ui_after_render. done.
Qed.

(** C8. On every reachable page at most one provider request is in
    flight; while [isLoading] holds, submitting by the button or by the
    Enter key changes nothing and sends nothing, and exactly one
    request is in flight; and when the request in flight settles,
    whatever its outcome, [isLoading] is false again and nothing is in
    flight. *)
Theorem single_request_in_flight (w : World) :
  reachable env w →
  (length (pending w) ≤ 1)%nat
  ∧ (isLoading (ui w) = true →
       step env w Submit = w ∧ step env w (KeyPress "Enter" false) = w)
  ∧ (isLoading (ui w) = true →
       length (pending w) = 1%nat
       ∧ ∀ outcome : completion Response,
           isLoading (ui (step env w (Settle 0 outcome))) = false
           ∧ pending (step env w (Settle 0 outcome)) = [])
  ∧ (∀ (i : nat) (outcome : completion Response),
       (i < length (pending w))%nat →
       isLoading (ui (step env w (Settle i outcome))) = false
       ∧ pending (step env w (Settle i outcome)) = []).
Proof.
  intros Hw. pose proof (reachable_loading_pending w Hw) as Hload.
  apply reachable_invariant in Hw as (Hlen & Hidle & Hres).
  assert (∀ (i : nat) (outcome : completion Response),
       (i < length (pending w))%nat →
       isLoading (ui (step env w (Settle i outcome))) = false
       ∧ pending (step env w (Settle i outcome)) = []) as Hsettle.
  { intros i o Hi. simpl.
    destruct (pending w) as [|[req k] [|rk' ps]] eqn:Hp; simpl in *; [lia| |lia].
    destruct i as [|i]; [|lia]. simpl.
    rewrite ui_after_render, pending_after_render.
    apply Forall_inv in Hres.
    match goal with
    | |- context [exec (k o) ?w0] => destruct (Hres o w0) as (txt & extra & E)
    end.
    cbn [snd] in E. by rewrite E. }
  split; [done|]. split; [|split; [|exact Hsettle]].
  - intros Hl. unfold step, handleKeyPress. simpl.
    rewrite exec_handleSendMessage, Hl, orb_true_r.
    unfold after_render. by rewrite decide_True.
  - intros Hl. specialize (Hload Hl).
    assert (length (pending w) = 1%nat) as Hone
      by (destruct (pending w) as [|rk [|rk' ps]]; simpl in *; [done|done|lia]).
    split; [done|]. intros o. apply Hsettle. lia.
Qed.

(** C7, amended.  Every update of the message list other than Clear
    Chat keeps the messages already present, unchanged and in their
    order, and only adds messages at the end; Clear Chat empties the
    list.  No operation edits, moves or removes a single message. *)
Theorem messages_append_only (w : World) (e : Event) :
  reachable env w →
  (e = ClearChat ∧ messages (ui (step env w e)) = [])
  ∨ (∃ added : list ChatMessage,
       messages (ui (step env w e)) = messages (ui w) ++ added).
Proof.
  intros Hw. apply reachable_invariant in Hw as (Hlen & Hidle & Hres).
  assert (∃ added, messages (ui (exec (handleSendMessage env (ui w)) w))
                   = messages (ui w) ++ added) as Hsend.
  { rewrite exec_handleSendMessage.
    destruct (_ || _); [exists []; by rewrite app_nil_r|].
    destruct (selected_provider env) as [api|]; simpl.
    - by eexists [_].
    - eexists [_; _]. by rewrite <- app_assoc. }
  destruct e as [v| |key shiftKey| |i o|dt]; simpl.
  - right. exists []. by rewrite app_nil_r.
  - right. by rewrite ui_after_render.
  - right. rewrite ui_after_render. unfold handleKeyPress.
    destruct (_ && _); [done|]. exists []. by rewrite app_nil_r.
  - left. by rewrite ui_after_render.
  - right. destruct (pending w !! i) as [[req k]|] eqn:Hi;
      [|exists []; by rewrite app_nil_r].
    rewrite ui_after_render.
    apply list_elem_of_lookup_2 in Hi.
    rewrite Forall_forall in Hres. specialize (Hres _ Hi).
    match goal with
    | |- context [exec (k o) ?w0] => destruct (Hres o w0) as (txt & extra & E)
    end.
    cbn [snd] in E. rewrite E. by eexists [_].
  - right. exists []. by rewrite app_nil_r.
Qed.

(** The answer to a failed provider call is an explanatory text. *)
Lemma request_failed_throws (api : string) (r : Response) :
  ∃ e, request_failed api r = Throw e.
Proof.
  unfold request_failed. destruct (error_detail _); simpl; eauto.
Qed.

Lemma provider_failure_throws (api : Provider) (o : completion Response) :
  provider_failure api o → ∃ e, o ≫= provider_result api = Throw e.
Proof.
  intros [e|r Hok|r e Hok Hbody|r props Hok Hbody Hnone].
  - by exists e.
  - change (Return r ≫= provider_result api) with (provider_result api r).
    destruct api; unfold provider_result, gemini_result, chat_completion_result;
      rewrite Hok; apply request_failed_throws.
  - change (Return r ≫= provider_result api) with (provider_result api r).
    exists e.
    destruct api; unfold provider_result, gemini_result, chat_completion_result;
      by rewrite Hok, Hbody.
  - change (Return r ≫= provider_result api) with (provider_result api r).
    destruct api; unfold provider_result, gemini_result, chat_completion_result;
      rewrite Hok, Hbody; simpl in *; destruct Hnone as [-> | ->]; simpl; eauto.
Qed.

Lemma reply_text_error (e : exn) :
  String.prefix "Error" (reply_text (Throw e)) = true.
Proof. by destruct e. Qed.

(** C2. When the call to the selected provider fails (the request is
    rejected, the status is not ok, the body cannot be read or holds no
    candidate or choice, or the provider function throws for any other
    reason), the send appends, after the user's message, exactly one
    assistant message whose text begins with "Error"; the request was
    issued once and is not issued again; the messages present before
    are unchanged. *)
Theorem failed_send_appends_error (w : World) (api : Provider)
    (outcome : completion Response) (dt : N) :
  isLoading (ui w) = false →
  trim (inputValue (ui w)) ≠ "" →
  selected_provider env = Some api →
  provider_failure api outcome
  ∨ (∃ e, outcome ≫= provider_result api = Throw e) →
  let w1 := step env w Submit in
  let w2 := step env (step env w1 (Tick dt)) (Settle (length (pending w)) outcome) in
  ∃ (req : Request) (user err : ChatMessage),
    requests w1 = requests w ++ [req]
    ∧ requests w2 = requests w1
    ∧ messages (ui w2) = messages (ui w) ++ [user; err]
    ∧ isUser user = true
    ∧ isUser err = false
    ∧ String.prefix "Error" (text err) = true.
Proof.
  intros Hl Hin Hsel Hfail w1 w2.
  assert (w1 = after_render w
            (sent (provider_request env api (messages (ui w) ++ [user_message w]))
               (suspended api) (submitted w))) as Hw1.
  { subst w1. simpl. rewrite exec_handleSendMessage, Hl, Hsel, orb_false_r.
    by destruct (String.eqb_spec (trim (inputValue (ui w))) ""). }
  assert (∃ e, outcome ≫= provider_result api = Throw e) as [e He]
    by (destruct Hfail as [Hfail|Hfail]; [by apply provider_failure_throws|done]).
  exists (provider_request env api (messages (ui w) ++ [user_message w])),
    (user_message w),
    {| id := pretty (clock w + Z.of_N dt + 1); text := reply_text (Throw e);
       isUser := false; timestamp := Time (clock w + Z.of_N dt) |}.
  assert (pending (step env w1 (Tick dt)) !! length (pending w)
          = Some (provider_request env api (messages (ui w) ++ [user_message w]),
                  suspended api)) as Hp.
  { rewrite Hw1. simpl. rewrite pending_after_render. simpl.
    by rewrite list_lookup_middle. }
  assert (w2 = after_render (step env w1 (Tick dt))
                 (finished (reply_text (Throw e)) (extra_logs (Throw (A:=string) e))
                    (set_pending (delete (length (pending w))
                                    (pending (step env w1 (Tick dt))))
                       (step env w1 (Tick dt))))) as Hw2.
  { subst w2. unfold step at 1. by rewrite Hp, exec_suspended, He. }
  rewrite Hw2, ui_after_render, requests_after_render.
  cbn [finished ui requests messages set_pending step set_clock clock].
  rewrite Hw1, ui_after_render, requests_after_render, clock_after_render. simpl.
  split; [done|]. split; [done|]. split; [by rewrite <- app_assoc|].
  split; [done|]. split; [done|]. apply reply_text_error.
Qed.

End Component.

(** ** The reference runtime keeps the laws *)

Lemma ref_digit (d : Z) :
  0 ≤ d ≤ 9 →
  let c := ascii_of_N (Z.to_N (48 + d)) in
  Ref.is_digit c = true ∧ Ref.digit_value c = d
  ∧ Ascii.eqb c "+" = false ∧ Ascii.eqb c "-" = false.
Proof.
  intros H.
  assert (d = 0 ∨ d = 1 ∨ d = 2 ∨ d = 3 ∨ d = 4 ∨ d = 5 ∨ d = 6 ∨ d = 7 ∨ d = 8 ∨ d = 9)
    as Hd by lia.
  repeat destruct Hd as [->|Hd]; try subst d; by vm_compute.
Qed.

Lemma ref_read_digits_snoc (w : nat) (acc : Z) (s : string) (a : Z) (c : ascii) (r : string) :
  Ref.read_digits w acc s = Some (a, String c r) →
  Ref.is_digit c = true →
  Ref.read_digits (S w) acc s = Some (10 * a + Ref.digit_value c, r).
Proof.
  revert acc s. induction w as [|w IH]; intros acc s Hs Hc.
  - injection Hs as -> ->. simpl. by rewrite Hc.
  - destruct s as [|c' s']; [done|].
    cbn [Ref.read_digits] in Hs |- *.
    destruct (Ref.is_digit c'); [|done]. by apply IH.
Qed.

Lemma ref_read_digits_pad (w : nat) (n acc : Z) (k : string) :
  0 ≤ n < 10 ^ Z.of_nat w →
  Ref.read_digits w acc (Ref.pad w n k) = Some (acc * 10 ^ Z.of_nat w + n, k).
Proof.
  revert n k. induction w as [|w IH]; intros n k Hn.
  - simpl in *. f_equal. f_equal. lia.
  - rewrite Nat2Z.inj_succ, Z.pow_succ_r in * by lia.
    cbn [Ref.pad].
    destruct (ref_digit (n mod 10)) as (Hd & Hv & _);
      [Z.div_mod_to_equations; lia|].
    assert (0 ≤ n / 10 < 10 ^ Z.of_nat w) as Hq by (Z.div_mod_to_equations; lia).
    rewrite (ref_read_digits_snoc w acc _ _ _ _ (IH (n / 10) _ Hq) Hd), Hv.
    f_equal. f_equal. rewrite (Z.div_mod n 10) at 3 by lia. ring.
Qed.

Lemma ref_read_digits_pad_0 (w : nat) (n : Z) (k : string) :
  0 ≤ n < 10 ^ Z.of_nat w →
  Ref.read_digits w 0 (Ref.pad w n k) = Some (n, k).
Proof. intros Hn. by rewrite ref_read_digits_pad. Qed.

Lemma ref_pad_head (w : nat) (n : Z) (k : string) :
  0 ≤ n →
  ∃ c r, Ref.pad (S w) n k = String c r
         ∧ Ascii.eqb c "+" = false ∧ Ascii.eqb c "-" = false.
Proof.
  revert n k. induction w as [|w IH]; intros n k Hn.
  - destruct (ref_digit (n mod 10)) as (_ & _ & Hp & Hm);
      [Z.div_mod_to_equations; lia|].
    by eexists _, _.
  - change (Ref.pad (S (S w)) n k)
      with (Ref.pad (S w) (n / 10) (String (ascii_of_N (Z.to_N (48 + n mod 10))) k)).
    apply IH. Z.div_mod_to_equations; lia.
Qed.

Lemma ref_read_year (y : Z) (k : string) :
  -999999 ≤ y ≤ 999999 →
  Ref.read_year (Ref.write_year y k) = Some (y, k).
Proof.
  intros Hy. unfold Ref.write_year.
  destruct (Z.leb_spec 0 y) as [H0|H0]; simpl andb.
  - destruct (Z.leb_spec y 9999) as [H1|H1].
    + destruct (ref_pad_head 3 y k H0) as (c & r & E & Hp & Hm).
      unfold Ref.read_year. rewrite E, Hp, Hm, <- E.
      by rewrite ref_read_digits_pad_0 by (simpl; lia).
    + destruct (Z.ltb_spec y 0); [lia|]. unfold Ref.read_year.
      change (Ascii.eqb "+" "+") with true. cbv iota.
      rewrite ref_read_digits_pad_0 by (simpl; lia). f_equal. f_equal. lia.
  - destruct (Z.ltb_spec y 0); [|lia]. unfold Ref.read_year.
    change (Ascii.eqb "-" "+") with false. change (Ascii.eqb "-" "-") with true.
    cbv iota. rewrite ref_read_digits_pad_0 by (simpl; lia). simpl.
    destruct (Z.eqb_spec (Z.abs y) 0); [lia|]. f_equal. f_equal. lia.
Qed.

Lemma ref_parse_iso_fields (y m d h mi sec milli : Z) :
  -999999 ≤ y ≤ 999999 → 1 ≤ m ≤ 12 → 1 ≤ d ≤ 31 →
  0 ≤ h ≤ 23 → 0 ≤ mi ≤ 59 → 0 ≤ sec ≤ 59 → 0 ≤ milli ≤ 999 →
  Ref.parse_iso
    (Ref.write_year y
       (String "-" (Ref.pad 2 m
       (String "-" (Ref.pad 2 d
       (String "T" (Ref.pad 2 h
       (String ":" (Ref.pad 2 mi
       (String ":" (Ref.pad 2 sec
       (String "." (Ref.pad 3 milli "Z")))))))))))))
  = Some (Ref.days_from_civil y m d * Ref.MS_PER_DAY
          + h * 3600000 + mi * 60000 + sec * 1000 + milli).
Proof.
  intros Hy Hm Hd Hh Hmi Hs Hms. unfold Ref.parse_iso.
  rewrite ref_read_year by done.
  repeat (cbn [mbind option_bind Ref.expect Ascii.eqb Bool.eqb];
          rewrite ref_read_digits_pad_0 by (simpl; lia)).
  cbn [mbind option_bind Ref.expect Ascii.eqb Bool.eqb].
  change (String.eqb "" "") with true.
  repeat match goal with
         | |- context [?a <=? ?b] => destruct (Z.leb_spec a b); [|lia]
         end.
  reflexivity.
Qed.

Lemma ref_civil (z : Z) :
  ∃ y m d, Ref.civil_from_days z = (y, m, d)
           ∧ Ref.days_from_civil y m d = z
           ∧ 1 ≤ m ≤ 12 ∧ 1 ≤ d ≤ 31
           ∧ (z + 719468) / 146097 * 400 ≤ y ≤ (z + 719468) / 146097 * 400 + 400.
Proof.
  unfold Ref.civil_from_days.
  set (era := (z + 719468) / 146097).
  set (doe := z + 719468 - era * 146097).
  set (yoe := (doe - doe / 1460 + doe / 36524 - doe / 146096) / 365).
  set (doy := doe - (365 * yoe + yoe / 4 - yoe / 100)).
  set (mp := (5 * doy + 2) / 153).
  assert (0 ≤ doe < 146097) by (subst doe era; Z.div_mod_to_equations; lia).
  assert (0 ≤ yoe ≤ 399) by (subst yoe; Z.div_mod_to_equations; lia).
  assert (0 ≤ doy ≤ 365) by (subst doy yoe; Z.div_mod_to_equations; lia).
  assert (0 ≤ mp ≤ 11) by (subst mp; Z.div_mod_to_equations; lia).
  assert (1 ≤ doy - (153 * mp + 2) / 5 + 1 ≤ 31)
    by (subst mp; Z.div_mod_to_equations; lia).
  eexists _, _, _. split; [reflexivity|].
  split; [|split; [|split]].
  - unfold Ref.days_from_civil.
    set (m := if mp <? 10 then mp + 3 else mp - 9).
    assert ((if 2 <? m then m - 3 else m + 9) = mp) as ->.
    { subst m. destruct (Z.ltb_spec mp 10);
        match goal with |- context [2 <? ?a] => destruct (Z.ltb_spec 2 a) end; lia. }
    replace (yoe + era * 400 + (if m <=? 2 then 1 else 0) - (if m <=? 2 then 1 else 0))
      with (yoe + era * 400) by lia.
    rewrite Z.div_add, (Z.div_small yoe 400) by lia.
    replace (yoe + era * 400 - (0 + era) * 400) with yoe by lia.
    subst doy doe. lia.
  - destruct (Z.ltb_spec mp 10); lia.
  - done.
  - fold era. destruct (_ <=? 2); lia.
Qed.

Lemma ref_Date_parse_toISOString (ms : Z) :
  - MAX_TIME ≤ ms ≤ MAX_TIME → Ref.date_parse (Ref.iso_string ms) = Time ms.
Proof.
  unfold MAX_TIME. intros Hms. unfold Ref.date_parse, Ref.iso_string.
  destruct (ref_civil (ms / Ref.MS_PER_DAY)) as (y & m & d & -> & Hdays & Hm & Hd & Hy).
  unfold Ref.MS_PER_DAY in *.
  assert (0 ≤ ms mod 86400000 < 86400000) by (apply Z.mod_pos_bound; lia).
  rewrite ref_parse_iso_fields; try done; try (Z.div_mod_to_equations; lia).
  rewrite Hdays. unfold Ref.MS_PER_DAY.
  replace (ms / 86400000 * 86400000 + ms mod 86400000 / 3600000 * 3600000
           + ms mod 86400000 / 60000 mod 60 * 60000
           + ms mod 86400000 / 1000 mod 60 * 1000 + ms mod 86400000 mod 1000)
    with ms by (Z.div_mod_to_equations; lia).
  unfold TimeClip, MAX_TIME. destruct (Z.leb_spec (Z.abs ms) 8640000000000000); [done|lia].
Qed.

Lemma json_ind' (P : json → Prop) :
  P JNull → (∀ b, P (JBool b)) → (∀ n, P (JNum n)) → (∀ s, P (JStr s)) →
  (∀ l, Forall P l → P (JArr l)) →
  (∀ props, Forall (fun kv => P (snd kv)) props → P (JObj props)) →
  ∀ v, P v.
Proof.
  intros Hnull Hbool Hnum Hstr Harr Hobj.
  fix IH 1. intros [ |b|n|s|l|props];
    [apply Hnull|apply Hbool|apply Hnum|apply Hstr| |].
  - apply Harr. induction l as [|x l IHl]; constructor; [apply IH|apply IHl].
  - apply Hobj. induction props as [|[key x] props IHp]; constructor; [apply IH|apply IHp].
Qed.

Lemma ref_read_chars (s k : string) :
  Ref.read_chars (Ref.write_chars s k) = Some (s, k).
Proof.
  induction s as [|c s IH]; [done|].
  cbn [Ref.write_chars]. remember (Ref.write_chars s k) as K eqn:HK. clear HK.
  destruct c as [[] [] [] [] [] [] [] []]; simpl; rewrite IH; reflexivity.
Qed.

Lemma ref_write_chars_length (s k : string) :
  (S (String.length k) ≤ String.length (Ref.write_chars s k))%nat.
Proof.
  induction s as [|c s IH]; [simpl; lia|].
  cbn [Ref.write_chars]. unfold Ref.write_char.
  repeat case_match; simpl; lia.
Qed.

Lemma ref_write_head (v : json) (k : string) :
  json_wf v = true →
  ∃ c r, Ref.write v k = String c r
         ∧ Ascii.eqb "]" c = false ∧ Ascii.eqb "}" c = false.
Proof.
  destruct v as [ |[]|n|s|l|props]; intros Hwf; try done; by eexists _, _.
Qed.

Lemma ref_parse_seq {A} (item : string → option (A * string))
    (wr : A → string → string) (closer : ascii) (l : list A) (k : string) (n : nat) :
  Ascii.eqb closer "," = false →
  Forall (fun x => ∀ k', item (wr x k') = Some (x, k')) l →
  l ≠ [] → (length l ≤ n)%nat →
  Ref.parse_seq item closer n (Ref.write_seq wr closer l k) = Some (l, k).
Proof.
  intros Hc Hl. revert n. induction Hl as [|x l Hx Hl IH]; intros n Hne Hn; [done|].
  destruct n as [|n]; [simpl in Hn; lia|].
  cbn [Ref.parse_seq Ref.write_seq]. rewrite Hx. cbn [mbind option_bind].
  destruct l as [|y l].
  - cbn [Ref.write_seq]. rewrite Hc, Ascii.eqb_refl. done.
  - change (Ascii.eqb "," ",") with true. cbv iota.
    rewrite IH; [done|done|simpl in *; lia].
Qed.

Lemma ref_foldr_size_length {A} (f : A → nat) (l : list A) :
  (∀ x, 1 ≤ f x)%nat → (length l ≤ foldr (fun x n => f x + n) 0 l)%nat.
Proof.
  intros Hf. induction l as [|x l IH]; simpl; [lia|]. specialize (Hf x). lia.
Qed.

Lemma ref_size_pos (v : json) : (1 ≤ Ref.size v)%nat.
Proof. destruct v; simpl; lia. Qed.

Lemma ref_items (f : nat) (l : list json) :
  Forall (fun x => json_wf x = true → ∀ (k : string) (fuel : nat),
            (Ref.size x ≤ fuel)%nat → Ref.parse_value fuel (Ref.write x k) = Some (x, k)) l →
  forallb json_wf l = true →
  (foldr (fun x n => Ref.size x + n) 0 l ≤ f)%nat →
  Forall (fun x => ∀ k', Ref.parse_value f (Ref.write x k') = Some (x, k')) l.
Proof.
  induction 1 as [|x l Hx _ IH]; intros Hwf Hf; constructor;
    cbn [forallb foldr] in *; apply andb_prop in Hwf as [Hwx Hwl].
  - intros k'. apply Hx; [done|lia].
  - apply IH; [done|lia].
Qed.

Lemma ref_members (f : nat) (props : list (string * json)) :
  Forall (fun kv => json_wf kv.2 = true → ∀ (k : string) (fuel : nat),
            (Ref.size kv.2 ≤ fuel)%nat →
            Ref.parse_value fuel (Ref.write kv.2 k) = Some (kv.2, k)) props →
  (fix all (l : list (string * json)) : bool :=
     match l with
     | [] => true
     | (_, x) :: l' => json_wf x && all l'
     end) props = true →
  (foldr (fun kv n => Ref.size kv.2 + n) 0 props ≤ f)%nat →
  Forall (fun kv => ∀ k',
            Ref.parse_member (Ref.parse_value f)
              (Ref.write_string kv.1 (String ":" (Ref.write kv.2 k'))) = Some (kv, k'))
    props.
Proof.
  induction 1 as [|[key x] props Hx _ IH]; intros Hwf Hf; constructor;
    cbn [foldr snd fst] in *; apply andb_prop in Hwf as [Hwx Hwl].
  - intros k'. unfold Ref.parse_member, Ref.write_string.
    change (Ascii.eqb Ref.dquote Ref.dquote) with true. cbv iota.
    rewrite ref_read_chars. cbn [mbind option_bind Ref.expect].
    change (Ascii.eqb ":" ":") with true. cbv iota. cbn [mbind option_bind].
    rewrite Hx; [done|done|lia].
  - apply IH; [done|lia].
Qed.

Lemma ref_parse_write (v : json) :
  json_wf v = true →
  ∀ (k : string) (fuel : nat),
    (Ref.size v ≤ fuel)%nat → Ref.parse_value fuel (Ref.write v k) = Some (v, k).
Proof.
  induction v as [ |b|n|s|l IH|props IH] using json_ind';
    intros Hwf k fuel Hfuel;
    (destruct fuel as [|f]; [simpl in Hfuel; lia|]).
  - reflexivity.
  - by destruct b.
  - done.
  - cbn [Ref.write Ref.write_string Ref.parse_value].
    change (Ascii.eqb Ref.dquote Ref.dquote) with true. cbv iota.
    by rewrite ref_read_chars.
  - cbn [Ref.write Ref.parse_value].
    change (Ascii.eqb "[" Ref.dquote) with false.
    change (Ascii.eqb "[" "[") with true. cbv iota.
    destruct l as [|x l]; [reflexivity|].
    cbn [json_wf] in Hwf. cbn [Ref.size] in Hfuel.
    assert (Ref.expect "]" (Ref.write_seq Ref.write "]" (x :: l) k) = None) as ->.
    { cbn [Ref.write_seq]. cbn [forallb] in Hwf. apply andb_prop in Hwf as [Hx _].
      edestruct (ref_write_head x) as (c & r & -> & Hc & _); [done|].
      cbn [Ref.expect]. by rewrite Hc. }
    rewrite (ref_parse_seq (Ref.parse_value f) Ref.write "]" (x :: l) k f);
      [done|done| |done|].
    + apply ref_items; [done|done|lia].
    + pose proof (ref_foldr_size_length Ref.size (x :: l) ref_size_pos). lia.
  - cbn [Ref.write Ref.parse_value].
    change (Ascii.eqb "{" Ref.dquote) with false.
    change (Ascii.eqb "{" "[") with false.
    change (Ascii.eqb "{" "{") with true. cbv iota.
    destruct props as [|[key x] props]; [reflexivity|].
    cbn [json_wf] in Hwf. cbn [Ref.size] in Hfuel.
    apply andb_prop in Hwf as [_ Hwf].
    match goal with
    | |- context [Ref.write_seq ?wr "}" ?l k] =>
        assert (Ref.expect "}" (Ref.write_seq wr "}" l k) = None) as ->;
          [reflexivity|];
        rewrite (ref_parse_seq (Ref.parse_member (Ref.parse_value f)) wr "}" l k f);
          [done|done| |done|]
    end.
    + apply ref_members; [done|done|lia].
    + pose proof (ref_foldr_size_length (fun kv => Ref.size kv.2) ((key, x) :: props)
                    (fun kv => ref_size_pos kv.2)). lia.
Qed.

Lemma ref_write_seq_length {A} (wr : A → string → string) (sz : A → nat)
    (closer : ascii) (l : list A) (k : string) :
  Forall (fun x => ∀ k', (sz x + String.length k' ≤ String.length (wr x k'))%nat) l →
  (foldr (fun x n => sz x + n) 0 l + S (String.length k)
   ≤ String.length (Ref.write_seq wr closer l k))%nat.
Proof.
  induction 1 as [|x l Hx _ IH]; [simpl; lia|].
  cbn [Ref.write_seq foldr]. destruct l as [|y l].
  - specialize (Hx (String closer k)). simpl in *. lia.
  - match goal with |- context [wr x ?K] => specialize (Hx K) end.
    cbn [String.length] in Hx. lia.
Qed.

Lemma ref_size_length (v : json) :
  json_wf v = true →
  ∀ k, (Ref.size v + String.length k ≤ String.length (Ref.write v k))%nat.
Proof.
  induction v as [ |b|n|s|l IH|props IH] using json_ind'; intros Hwf k.
  - simpl. lia.
  - destruct b; simpl; lia.
  - done.
  - cbn [Ref.write Ref.write_string Ref.size String.length].
    pose proof (ref_write_chars_length s k). lia.
  - cbn [Ref.write Ref.size String.length]. cbn [json_wf] in Hwf.
    pose proof (ref_write_seq_length Ref.write Ref.size "]" l k) as H.
    cut (Forall (fun x => ∀ k', (Ref.size x + String.length k'
                                 ≤ String.length (Ref.write x k'))%nat) l);
      [intros HF; specialize (H HF); lia|].
    clear H. induction IH as [|x l Hx _ IHl]; constructor;
      cbn [forallb] in Hwf; apply andb_prop in Hwf as [Hwx Hwl]; auto.
  - cbn [Ref.write Ref.size String.length]. cbn [json_wf] in Hwf.
    apply andb_prop in Hwf as [_ Hwf].
    match goal with
    | |- context [Ref.write_seq ?wr "}" props k] =>
        pose proof (ref_write_seq_length wr (fun kv => Ref.size kv.2) "}" props k) as H;
        cut (Forall (fun kv => ∀ k', (Ref.size kv.2 + String.length k'
                                      ≤ String.length (wr kv k'))%nat) props);
          [intros HF; specialize (H HF); lia|]
    end.
    clear H. induction IH as [|[key x] l Hx _ IHl]; constructor;
      apply andb_prop in Hwf as [Hwx Hwl]; auto.
    intros k'. cbn [fst snd Ref.write_string String.length] in *.
    pose proof (ref_write_chars_length key (String ":" (Ref.write x k'))).
    specialize (Hx Hwx k'). cbn [String.length] in *. lia.
Qed.

Lemma ref_laws : RuntimeLaws Ref.runtime.
Proof.
  split.
  - intros v Hwf. cbn [JSON_parse JSON_stringify Ref.runtime].
    unfold Ref.parse, Ref.stringify.
    rewrite ref_parse_write; [done|done|].
    pose proof (ref_size_length v Hwf ""). simpl in *. lia.
  - intros v Hwf. cbn [JSON_stringify Ref.runtime]. unfold Ref.stringify.
    destruct (ref_write_head v "" Hwf) as (c & r & -> & _). done.
  - apply ref_Date_parse_toISOString.
Qed.

(** ** The properties on concrete pages *)

#[local] Existing Instance Ref.runtime.

Lemma getAIResponse_selects_provider_witness :
  fetches (run (fun _ => Return Sample.gemini_reply) 1000
             (getAIResponse Sample.gemini_env [Sample.question])
             {| messages := [Sample.question]; inputValue := ""; isLoading := true |}).2
  = [gemini_request [Sample.question] "gemini-key"].
Proof.
  destruct (getAIResponse_selects_provider (fun _ => Return Sample.gemini_reply) 1000
              Sample.gemini_env [Sample.question]
              {| messages := [Sample.question]; inputValue := ""; isLoading := true |})
    as [H _].
  apply H. reflexivity.
Defined.

Lemma getAIResponse_total_witness :
  "Failed to get AI response:"
  ∉ logs (run (fun _ => Throw (Error "Failed to fetch")) 1000
            (handleSendMessage Sample.gemini_env
               {| messages := []; inputValue := "Why?"; isLoading := false |})
            {| messages := []; inputValue := "Why?"; isLoading := false |}).2.
Proof.
  destruct (getAIResponse_total (fun _ => Throw (Error "Failed to fetch")) 1000
              Sample.gemini_env []
              {| messages := []; inputValue := "Why?"; isLoading := false |})
    as [_ H].
  apply H.
Defined.

Lemma loadMessagesFromStorage_welcome_witness :
  ∃ welcome : ChatMessage,
    (loadMessagesFromStorage 1000 Sample.fresh_browser).1 = [object_of_message welcome]
    ∧ mapM as_ChatMessage (loadMessagesFromStorage 1000 Sample.fresh_browser).1
      = Some [welcome]
    ∧ id welcome = "1" ∧ isUser welcome = false.
Proof.
  apply (loadMessagesFromStorage_welcome 1000 Sample.fresh_browser).
  left. reflexivity.
Defined.

Lemma storage_round_trip_witness :
  (loadMessagesFromStorage 5000
     (saveMessagesToStorage [Sample.question; Sample.answer] Sample.fresh_browser)).1
  = map object_of_message [Sample.question; Sample.answer]
  ∧ mapM as_ChatMessage
      (loadMessagesFromStorage 5000
         (saveMessagesToStorage [Sample.question; Sample.answer] Sample.fresh_browser)).1
    = Some [Sample.question; Sample.answer].
Proof.
  eapply (storage_round_trip ref_laws).
  - repeat constructor; unfold MAX_TIME; simpl; lia.
  - vm_compute. reflexivity.
Defined.

(** C3 as stated fails: a write that the storage area refuses is
    swallowed, and the next load returns the welcome message. *)
Lemma storage_round_trip_refused_write :
  (loadMessagesFromStorage 5000
     (saveMessagesToStorage [Sample.question] Sample.full_browser)).1
  ≠ map object_of_message [Sample.question].
Proof. vm_compute. discriminate. Qed.

Lemma mount_fresh : mount 1000 Sample.fresh_browser = Some Sample.mounted.
Proof. vm_compute. reflexivity. Qed.

Lemma reachable_steps (env : Env) (w : World) (es : list Event) :
  reachable env w → reachable env (steps env w es).
Proof.
  revert w. induction es as [|e es IH]; intros w Hw; [done|].
  apply IH. by constructor.
Qed.

Lemma reachable_sample (es : list Event) :
  reachable Sample.gemini_env (steps Sample.gemini_env Sample.mounted es).
Proof. apply reachable_steps. eapply reachable_mount, mount_fresh. Qed.

Lemma failed_send_appends_error_witness :
  let w := step Sample.gemini_env Sample.mounted (Change "Why?") in
  let w1 := step Sample.gemini_env w Submit in
  let w2 := step Sample.gemini_env (step Sample.gemini_env w1 (Tick 250))
              (Settle 0 (Return Sample.gemini_refusal)) in
  ∃ (req : Request) (user err : ChatMessage),
    requests w1 = requests w ++ [req]
    ∧ requests w2 = requests w1
    ∧ messages (ui w2) = messages (ui w) ++ [user; err]
    ∧ isUser user = true
    ∧ isUser err = false
    ∧ String.prefix "Error" (text err) = true.
Proof.
  apply (failed_send_appends_error Sample.gemini_env
           (step Sample.gemini_env Sample.mounted (Change "Why?"))
           GeminiAPI (Return Sample.gemini_refusal) 250).
  - reflexivity.
  - vm_compute. discriminate.
  - reflexivity.
  - left. apply status_not_ok. reflexivity.
Defined.

Lemma single_request_in_flight_witness :
  let w := steps Sample.gemini_env Sample.mounted [Change "Why?"; Submit] in
  isLoading (ui w) = true
  ∧ length (pending w) = 1%nat
  ∧ step Sample.gemini_env w Submit = w
  ∧ isLoading (ui (step Sample.gemini_env w (Settle 0 (Return Sample.gemini_refusal))))
    = false
  ∧ pending (step Sample.gemini_env w (Settle 0 (Return Sample.gemini_refusal))) = [].
Proof.
  destruct (single_request_in_flight Sample.gemini_env
              (steps Sample.gemini_env Sample.mounted [Change "Why?"; Submit])
              (reachable_sample [Change "Why?"; Submit]))
    as (_ & Hsubmit & Hloading & _).
  destruct (Hsubmit eq_refl) as [Hs _].
  destruct (Hloading eq_refl) as [Hone Hsettle].
  destruct (Hsettle (Return Sample.gemini_refusal)) as [Hl Hp].
  exact (conj eq_refl (conj Hone (conj Hs (conj Hl Hp)))).
Defined.

Lemma messages_append_only_witness :
  let w := steps Sample.gemini_env Sample.mounted [Change "Why?"; Submit] in
  (Settle 0 (Return Sample.gemini_reply) = ClearChat
   ∧ messages (ui (step Sample.gemini_env w (Settle 0 (Return Sample.gemini_reply)))) = [])
  ∨ (∃ added : list ChatMessage,
       messages (ui (step Sample.gemini_env w (Settle 0 (Return Sample.gemini_reply))))
       = messages (ui w) ++ added).
Proof.
  apply (messages_append_only Sample.gemini_env
           (steps Sample.gemini_env Sample.mounted [Change "Why?"; Submit])
           (Settle 0 (Return Sample.gemini_reply))).
  apply reachable_sample.
Defined.

(** C7 as stated fails: Clear Chat removes the messages that were
    present. *)
Lemma clear_chat_removes_messages :
  reachable Sample.gemini_env Sample.mounted
  ∧ messages (ui Sample.mounted) = [welcome_message 1000]
  ∧ messages (ui (step Sample.gemini_env Sample.mounted ClearChat)) = []
  ∧ ¬ ∃ added : list ChatMessage,
        messages (ui (step Sample.gemini_env Sample.mounted ClearChat))
        = messages (ui Sample.mounted) ++ added.
Proof.
  split; [apply (reachable_sample [])|]. split; [reflexivity|].
  split; [vm_compute; reflexivity|].
  intros [added H]. vm_compute in H. discriminate.
Qed.

(** C6 fails on the code: the reply to a message is given the id of the
    clock reading plus one, which is the id of a message sent one
    millisecond after the reply arrived. *)
Lemma duplicate_message_id :
  let w := steps Sample.gemini_env Sample.mounted
             [Change "Why?"; Submit; Tick 4000; Settle 0 (Return Sample.gemini_reply);
              Tick 1; Change "How?"; Submit] in
  reachable Sample.gemini_env w
  ∧ map id (messages (ui w)) = ["1"; "1000"; "5001"; "5001"]
  ∧ ¬ NoDup (map id (messages (ui w))).
Proof.
  split; [apply reachable_sample|].
  assert (map id (messages (ui (steps Sample.gemini_env Sample.mounted
             [Change "Why?"; Submit; Tick 4000; Settle 0 (Return Sample.gemini_reply);
              Tick 1; Change "How?"; Submit])))
          = ["1"; "1000"; "5001"; "5001"]) as E by (vm_compute; reflexivity).
  split; [exact E|]. rewrite E. intros H.
  apply NoDup_cons in H as [_ H]. apply NoDup_cons in H as [_ H].
  apply NoDup_cons in H as [H _]. apply H. left.
Qed.

(** * Further properties of the code *)

(** ** The database connection *)

Lemma mongo_run_catch (mongoose : string → completion unit) (e : exn) :
  ∃ e' t, Mongo.run mongoose (Mongo.connect_catch e) = (Throw e', t)
          ∧ Mongo.attempts t = [].
Proof.
  unfold Mongo.connect_catch. unfold mbind at 1, Mongo.Prog_bind.
  destruct (Mongo.message_of e) as [m|e']; simpl; by eexists _, _.
Qed.

(** X1. [connect] resolves exactly when a connection string is
    configured and [mongoose.connect] resolves on it; it has then
    connected once, to that string, and logged the success. *)
Theorem mongo_connect_resolves (mongoose : string → completion unit)
    (this : Mongo.MongoConnection) :
  ((Mongo.run mongoose (Mongo.connect this)).1 = Return tt
   ↔ Mongo.connectUrl this ≠ "" ∧ mongoose (Mongo.connectUrl this) = Return tt)
  ∧ ((Mongo.run mongoose (Mongo.connect this)).1 = Return tt →
     (Mongo.run mongoose (Mongo.connect this)).2
     = [Mongo.Connected (Mongo.connectUrl this); Mongo.Logged "Connected to MongoDB"]).
Proof.
  unfold Mongo.connect.
  destruct (String.eqb_spec (Mongo.connectUrl this) "") as [Hu|Hu].
  - cbn [Mongo.try_catch].
    destruct (mongo_run_catch mongoose
                (Error "MONGODB_URI is not defined in environment variables"))
      as (e' & t & -> & _).
    split; [split|]; [done|by intros []|done].
  - unfold mbind, Mongo.Prog_bind, Mongo.mongoose_connect. cbn [Mongo.bind Mongo.try_catch Mongo.run].
    destruct (mongoose (Mongo.connectUrl this)) as [[]|e] eqn:E; cbn.
    + split; [split|]; done.
    + destruct (mongo_run_catch mongoose e) as (e' & t & -> & _).
      split; [split|]; [done|by intros []|done].
Qed.

Lemma mongo_connect_resolves_witness :
  (Mongo.run (fun _ => Return tt) (Mongo.connect (Mongo.new (Some "mongodb://db/lms")))).2
  = [Mongo.Connected "mongodb://db/lms"; Mongo.Logged "Connected to MongoDB"].
Proof.
  destruct (mongo_connect_resolves (fun _ => Return tt)
              (Mongo.new (Some "mongodb://db/lms"))) as [_ H].
  apply H. reflexivity.
Defined.

(** X2. Without a connection string ([MONGODB_URI] undefined or empty)
    [connect] rejects with the message that names the variable, logs
    it, and does not call [mongoose.connect]. *)
Theorem mongo_connect_without_uri (mongoose : string → completion unit)
    (MONGODB_URI : option string) :
  MONGODB_URI = None ∨ MONGODB_URI = Some "" →
  Mongo.run mongoose (Mongo.connect (Mongo.new MONGODB_URI))
  = (Throw (Error "Error connecting to MongoDB: MONGODB_URI is not defined in environment variables"),
     [Mongo.Errored "MongoDB connection error:"
        (Some (JStr "MONGODB_URI is not defined in environment variables"))]).
Proof. intros [-> | ->]; reflexivity. Qed.

Lemma mongo_connect_without_uri_witness :
  Mongo.run (fun _ => Return tt) (Mongo.connect (Mongo.new None))
  = (Throw (Error "Error connecting to MongoDB: MONGODB_URI is not defined in environment variables"),
     [Mongo.Errored "MongoDB connection error:"
        (Some (JStr "MONGODB_URI is not defined in environment variables"))]).
Proof. apply (mongo_connect_without_uri (fun _ => Return tt) None). by left. Defined.

(** X3. When [mongoose.connect] rejects with an [Error], [connect]
    logs its message and rejects with a new [Error] whose message is
    "Error connecting to MongoDB: " followed by that message, or by
    "Unknown error" when the message is empty. *)
Theorem mongo_connect_wraps_error (mongoose : string → completion unit)
    (this : Mongo.MongoConnection) (message : string) :
  Mongo.connectUrl this ≠ "" →
  mongoose (Mongo.connectUrl this) = Throw (Error message) →
  Mongo.run mongoose (Mongo.connect this)
  = (Throw (Error ("Error connecting to MongoDB: "
                   +:+ (if String.eqb message "" then "Unknown error" else message))),
     [Mongo.Connected (Mongo.connectUrl this);
      Mongo.Errored "MongoDB connection error:" (Some (JStr message))]).
Proof.
  intros Hu Hm. unfold Mongo.connect.
  destruct (String.eqb_spec (Mongo.connectUrl this) "") as [|_]; [done|].
  unfold mbind, Mongo.Prog_bind, Mongo.mongoose_connect.
  cbn [Mongo.bind Mongo.try_catch Mongo.run]. rewrite Hm. cbn.
  by destruct (String.eqb message "").
Qed.

Lemma mongo_connect_wraps_error_witness :
  Mongo.run (fun _ => Throw (Error "connect ECONNREFUSED 127.0.0.1:27017"))
    (Mongo.connect (Mongo.new (Some "mongodb://localhost/lms")))
  = (Throw (Error "Error connecting to MongoDB: connect ECONNREFUSED 127.0.0.1:27017"),
     [Mongo.Connected "mongodb://localhost/lms";
      Mongo.Errored "MongoDB connection error:"
        (Some (JStr "connect ECONNREFUSED 127.0.0.1:27017"))]).
Proof.
  apply (mongo_connect_wraps_error
           (fun _ => Throw (Error "connect ECONNREFUSED 127.0.0.1:27017"))
           (Mongo.new (Some "mongodb://localhost/lms"))
           "connect ECONNREFUSED 127.0.0.1:27017").
  - discriminate.
  - reflexivity.
Defined.

(** X4. Whatever the driver answers, [connect] tries the connection at
    most once and only on the configured string: there is no retry. *)
Theorem mongo_connect_no_retry (mongoose : string → completion unit)
    (this : Mongo.MongoConnection) :
  Mongo.attempts (Mongo.run mongoose (Mongo.connect this)).2
  = if String.eqb (Mongo.connectUrl this) "" then [] else [Mongo.connectUrl this].
Proof.
  unfold Mongo.connect. destruct (String.eqb (Mongo.connectUrl this) "").
  - cbn [Mongo.try_catch].
    destruct (mongo_run_catch mongoose
                (Error "MONGODB_URI is not defined in environment variables"))
      as (e' & t & -> & Ht).
    exact Ht.
  - unfold mbind, Mongo.Prog_bind, Mongo.mongoose_connect.
    cbn [Mongo.bind Mongo.try_catch Mongo.run].
    destruct (mongoose (Mongo.connectUrl this)) as [[]|e]; cbn; [done|].
    destruct (mongo_run_catch mongoose e) as (e' & t & -> & Ht).
    unfold Mongo.attempts in *. cbn. by rewrite Ht.
Qed.

(** ** Fetch and parse *)

Lemma run_getAIResponse (net : Request → completion Response) (now : Z)
    (env : Env) (api : Provider) (messages : list ChatMessage) (st : ChatState) :
  selected_provider env = Some api →
  run net now (getAIResponse env messages) st
  = (Return (reply_text (net (provider_request env api messages) ≫= provider_result api)),
     st,
     [ObsFetch (provider_request env api messages)]
     ++ thrown (net (provider_request env api messages) ≫= provider_result api)).
Proof.
  intros Hsel. unfold getAIResponse.
  by rewrite run_getAIResponse_catch, run_getAIResponse_try, Hsel.
Qed.

(** X5. With the Gemini key set and an ok response whose first
    candidate holds a first part with a string text, [getAIResponse]
    resolves to that text with the white space around it removed; it
    has sent the one request and logged nothing. *)
Theorem getAIResponse_gemini_text (net : Request → completion Response) (now : Z)
    (env : Env) (messages : list ChatMessage) (st : ChatState) (r : Response)
    (props cprops tprops pprops : list (string * json))
    (candidates parts : list json) (s : string) :
  key_set (VITE_GEMINI_API_KEY env) = true →
  net (gemini_request messages (key_string (VITE_GEMINI_API_KEY env))) = Return r →
  ok r = true →
  json_body r = Return (JObj props) →
  assoc "candidates" props = Some (JArr (JObj cprops :: candidates)) →
  assoc "content" cprops = Some (JObj tprops) →
  assoc "parts" tprops = Some (JArr (JObj pprops :: parts)) →
  assoc "text" pprops = Some (JStr s) →
  run net now (getAIResponse env messages) st
  = (Return (trim s), st,
     [ObsFetch (gemini_request messages (key_string (VITE_GEMINI_API_KEY env)))]).
Proof.
  intros Hkey Hnet Hok Hbody Hc Ht Hp Hs.
  rewrite (run_getAIResponse net now env GeminiAPI)
    by (unfold selected_provider; by rewrite Hkey).
  cbn [provider_request provider_result]. rewrite Hnet.
  change (Return r ≫= gemini_result) with (gemini_result r).
  assert (gemini_result r = Return (trim s)) as ->; [|done].
  unfold gemini_result. rewrite Hok, Hbody. cbn. rewrite Hc. cbn.
  rewrite Ht. cbn. rewrite Hp. cbn. by rewrite Hs.
Qed.

Lemma getAIResponse_gemini_text_witness :
  run (fun _ => Return Sample.gemini_reply) 1000
    (getAIResponse Sample.gemini_env [Sample.question])
    {| messages := [Sample.question]; inputValue := ""; isLoading := true |}
  = (Return "Hello!",
     {| messages := [Sample.question]; inputValue := ""; isLoading := true |},
     [ObsFetch (gemini_request [Sample.question] "gemini-key")]).
Proof.
  apply (getAIResponse_gemini_text (fun _ => Return Sample.gemini_reply) 1000
           Sample.gemini_env [Sample.question] _ Sample.gemini_reply
           [("candidates",
             JArr [JObj [("content",
                          JObj [("parts", JArr [JObj [("text", JStr " Hello! ")]])])]])]
           [("content", JObj [("parts", JArr [JObj [("text", JStr " Hello! ")]])])]
           [("parts", JArr [JObj [("text", JStr " Hello! ")]])]
           [("text", JStr " Hello! ")] [] [] " Hello! "); reflexivity.
Defined.

(** X6. With Groq or OpenAI selected and an ok response whose first
    choice holds a message with a string content, [getAIResponse]
    resolves to that content with the white space around it removed;
    it has sent the one request and logged nothing. *)
Theorem getAIResponse_choice_content (net : Request → completion Response) (now : Z)
    (env : Env) (api : Provider) (messages : list ChatMessage) (st : ChatState)
    (r : Response) (props cprops mprops : list (string * json))
    (choices : list json) (s : string) :
  selected_provider env = Some api →
  api ≠ GeminiAPI →
  net (provider_request env api messages) = Return r →
  ok r = true →
  json_body r = Return (JObj props) →
  assoc "choices" props = Some (JArr (JObj cprops :: choices)) →
  assoc "message" cprops = Some (JObj mprops) →
  assoc "content" mprops = Some (JStr s) →
  run net now (getAIResponse env messages) st
  = (Return (trim s), st, [ObsFetch (provider_request env api messages)]).
Proof.
  intros Hsel Hapi Hnet Hok Hbody Hc Hm Hs.
  rewrite (run_getAIResponse net now env api) by done. rewrite Hnet.
  change (Return r ≫= provider_result api) with (provider_result api r).
  assert (provider_result api r = Return (trim s)) as ->; [|done].
  destruct api; [done| |]; unfold provider_result, chat_completion_result;
    rewrite Hok, Hbody; cbn; rewrite Hc; cbn; rewrite Hm; cbn; by rewrite Hs.
Qed.

Lemma getAIResponse_choice_content_witness :
  run (fun _ => Return Demo.openai_reply) 1000
    (getAIResponse Demo.openai_env [Sample.question])
    {| messages := []; inputValue := ""; isLoading := true |}
  = (Return "Sure.",
     {| messages := []; inputValue := ""; isLoading := true |},
     [ObsFetch (openai_request [Sample.question] "sk-1")]).
Proof.
  apply (getAIResponse_choice_content (fun _ => Return Demo.openai_reply) 1000
           Demo.openai_env OpenAIAPI [Sample.question]
           {| messages := []; inputValue := ""; isLoading := true |}
           Demo.openai_reply
           [("choices", JArr [JObj [("message", JObj [("content", JStr "Sure. ")])]])]
           [("message", JObj [("content", JStr "Sure. ")])]
           [("content", JStr "Sure. ")] [] "Sure. "); done.
Defined.




(** ** The submit handler *)

Lemma trimEnd_blank (s : string) :
  trimEnd s = "" ↔ forallb is_space (String.list_ascii_of_string s) = true.
Proof.
  induction s as [|c s IH]; [done|]. cbn [trimEnd String.list_ascii_of_string forallb].
  destruct (trimEnd s) as [|c' t] eqn:E.
  - destruct (is_space c); cbn; [tauto|]. split; [done|]. intros [=].
  - split; [done|]. intros H. apply andb_prop in H as [_ H]. by apply IH in H.
Qed.

Lemma trimStart_blank (s : string) :
  trimStart s = "" ↔ forallb is_space (String.list_ascii_of_string s) = true.
Proof.
  induction s as [|c s IH]; [done|]. cbn [trimStart String.list_ascii_of_string forallb].
  destruct (is_space c); cbn; [done|]. split; intros [=].
Qed.

Lemma trimStart_suffix (s : string) :
  forallb is_space (String.list_ascii_of_string (trimStart s)) = true →
  forallb is_space (String.list_ascii_of_string s) = true.
Proof.
  induction s as [|c s IH]; [done|]. cbn [trimStart].
  destruct (is_space c) eqn:E; cbn [String.list_ascii_of_string forallb].
  - rewrite E. exact IH.
  - by rewrite E.
Qed.

Lemma trim_blank (s : string) :
  trim s = "" ↔ forallb is_space (String.list_ascii_of_string s) = true.
Proof.
  unfold trim. rewrite trimEnd_blank. split; [apply trimStart_suffix|].
  intros H. apply trimStart_blank in H. by rewrite H.
Qed.

Lemma trimEnd_cons (c : ascii) (s : string) :
  trimEnd (String c s)
  = match trimEnd s with
    | EmptyString => if is_space c then EmptyString else String c EmptyString
    | t => String c t
    end.
Proof. reflexivity. Qed.

Lemma trimEnd_idem (s : string) : trimEnd (trimEnd s) = trimEnd s.
Proof.
  induction s as [|c s IH]; [done|]. rewrite trimEnd_cons.
  destruct (trimEnd s) as [|c' t] eqn:E.
  - destruct (is_space c) eqn:Ec; [done|]. cbn. by rewrite Ec.
  - rewrite trimEnd_cons, IH. done.
Qed.

Lemma trimStart_head (s : string) : trimStart (trimStart s) = trimStart s.
Proof.
  induction s as [|c s IH]; [done|]. cbn [trimStart].
  destruct (is_space c) eqn:E; [done|]. cbn. by rewrite E.
Qed.

Lemma trimStart_trimEnd (s : string) :
  trimStart s = s → trimStart (trimEnd s) = trimEnd s.
Proof.
  destruct s as [|c s]; [done|]. cbn [trimStart trimEnd].
  destruct (is_space c) eqn:E.
  - destruct (trimEnd s); [done|]. intros H.
    assert (String.length (trimStart s) ≤ String.length s)%nat as Hlen.
    { clear. induction s as [|c s IH]; cbn; [lia|]. destruct (is_space c); cbn; lia. }
    rewrite H in Hlen. cbn in Hlen. lia.
  - intros _. destruct (trimEnd s); cbn; by rewrite E.
Qed.

(** [trim] leaves nothing to strip at either end. *)
Lemma trim_trimmed (s : string) :
  trimStart (trim s) = trim s ∧ trimEnd (trim s) = trim s.
Proof.
  unfold trim. split; [|apply trimEnd_idem].
  apply trimStart_trimEnd, trimStart_head.
Qed.

Section Handlers.
Context {R : Runtime} (env : Env).

(** X8. A submit of an input that holds only white space changes
    nothing; otherwise, when no request is loading, the message it
    adds carries the input with the white space at both ends removed,
    which is not empty. *)
Theorem submit_trims_input (w : World) :
  (forallb is_space (String.list_ascii_of_string (inputValue (ui w))) = true →
   step env w Submit = w)
  ∧ (forallb is_space (String.list_ascii_of_string (inputValue (ui w))) = false →
     isLoading (ui w) = false →
     ∃ (user : ChatMessage) (rest : list ChatMessage),
       messages (ui (step env w Submit)) = messages (ui w) ++ user :: rest
       ∧ isUser user = true
       ∧ text user = trim (inputValue (ui w))
       ∧ text user ≠ ""
       ∧ trimStart (text user) = text user
       ∧ trimEnd (text user) = text user).
Proof.
  split.
  - intros Hblank. apply trim_blank in Hblank.
    simpl. rewrite exec_handleSendMessage, Hblank. cbn.
    unfold after_render. by rewrite decide_True.
  - intros Hblank Hl.
    assert (trim (inputValue (ui w)) ≠ "") as Hne.
    { intros H. apply trim_blank in H. congruence. }
    simpl. rewrite ui_after_render, exec_handleSendMessage, Hl.
    destruct (String.eqb_spec (trim (inputValue (ui w))) "") as [|_]; [done|]. cbn.
    destruct (trim_trimmed (inputValue (ui w))) as [Hs He].
    destruct (selected_provider env) as [api|]; cbn.
    + by exists (user_message w), [].
    + eexists (user_message w), [_]. by rewrite <- app_assoc.
Qed.

(** X9. The submit button is disabled exactly when a submit would
    leave the page as it is. *)
Theorem submitDisabled_iff_no_effect (w : World) :
  submitDisabled (ui w) = true ↔ step env w Submit = w.
Proof.
  unfold submitDisabled. split.
  - intros H. simpl. rewrite exec_handleSendMessage, H.
    unfold after_render. by rewrite decide_True.
  - intros H. destruct (_ || _) eqn:E; [done|]. exfalso.
    assert (ui (step env w Submit) = ui w) as Hui by (by rewrite H).
    simpl in Hui. rewrite ui_after_render, exec_handleSendMessage, E in Hui.
    apply orb_false_elim in E as [_ El].
    destruct (selected_provider env) as [api|]; cbn in Hui.
    + rewrite <- Hui in El. done.
    + apply (f_equal (fun s => length (messages s))) in Hui. cbn in Hui.
      rewrite !length_app in Hui. cbn in Hui. lia.
Qed.

(** X10. Enter without Shift does what a submit does; every other key
    press, Shift+Enter included, leaves the page as it is. *)
Theorem keyPress_enter_submits (w : World) (key : string) (shiftKey : bool) :
  step env w (KeyPress key shiftKey)
  = if String.eqb key "Enter" && negb shiftKey then step env w Submit else w.
Proof.
  simpl. unfold handleKeyPress. destruct (_ && _); [done|].
  cbn. unfold after_render. by rewrite decide_True.
Qed.

End Handlers.

(** ** The page over time *)

Section Page.
Context {R : Runtime} (env : Env).

(** X11. On every reachable page [isLoading] holds exactly while a
    request is in flight. *)
Theorem loading_iff_request_in_flight (w : World) :
  reachable env w → (isLoading (ui w) = true ↔ pending w ≠ []).
Proof.
  intros Hw. split; [by apply (reachable_loading_pending env)|].
  pose proof (reachable_invariant env w Hw) as (_ & Hidle & _).
  destruct (isLoading (ui w)); [done|]. intros H. destruct H. by apply Hidle.
Qed.

(** X12. Every request a reachable page has sent went to the provider
    the environment selects, with that provider's key; with no key set
    no request is ever sent. *)
Theorem requests_go_to_selected_provider (w : World) :
  reachable env w →
  Forall (fun req => ∃ (api : Provider) (messages : list ChatMessage),
            selected_provider env = Some api
            ∧ req = provider_request env api messages) (requests w)
  ∧ (selected_provider env = None → requests w = []).
Proof.
  intros Hw.
  assert (Forall (fun req => ∃ (api : Provider) (messages : list ChatMessage),
            selected_provider env = Some api
            ∧ req = provider_request env api messages) (requests w)) as H.
  { induction Hw as [now b w Hm|w e Hw IH].
    - unfold mount in Hm. destruct (loadMessagesFromStorage now b) as [loaded b'].
      destruct (mapM as_ChatMessage loaded) as [msgs|]; [|done]. cbn in Hm.
      injection Hm as <-. unfold save_effect. cbn. by destruct msgs.
    - pose proof (reachable_invariant env w Hw) as Hinv.
      assert (Forall (fun req => ∃ (api : Provider) (messages : list ChatMessage),
                selected_provider env = Some api
                ∧ req = provider_request env api messages)
                (requests (exec (handleSendMessage env (ui w)) w))) as Hsend.
      { rewrite exec_handleSendMessage. destruct (_ || _); [exact IH|].
        destruct (selected_provider env) as [api|] eqn:Hsel; cbn; [|exact IH].
        apply Forall_app. split; [exact IH|]. repeat constructor. by eexists _, _. }
      destruct e as [v| |key shiftKey| |i o|dt]; cbn [step]; try exact IH.
      + by rewrite requests_after_render.
      + rewrite requests_after_render. unfold handleKeyPress.
        by destruct (_ && _).
      + by rewrite requests_after_render.
      + destruct (pending w !! i) as [[req k]|] eqn:Hi; [|exact IH].
        destruct (step_settle env w i o req k Hinv Hi) as (txt & extra & E).
        cbn [step] in E. rewrite Hi in E. by rewrite E, requests_after_render. }
  split; [exact H|]. intros Hnone.
  destruct (requests w) as [|req reqs]; [done|].
  apply Forall_inv in H as (api & msgs & Hsel & _). congruence.
Qed.

(** X13. A submit with a provider selected does this before it waits:
    it empties the input, sets [isLoading], appends the user's message
    (trimmed text, id and timestamp from the clock) and sends one
    request that carries the messages shown so far followed by the new
    one. *)
Theorem submit_sends_conversation (w : World) (api : Provider) :
  submitDisabled (ui w) = false →
  selected_provider env = Some api →
  ui (step env w Submit)
  = {| messages := messages (ui w)
                   ++ [ {| id := pretty (clock w); text := trim (inputValue (ui w));
                           isUser := true; timestamp := Time (clock w) |} ];
       inputValue := ""; isLoading := true |}
  ∧ requests (step env w Submit)
    = requests w
      ++ [provider_request env api
            (messages (ui w)
             ++ [ {| id := pretty (clock w); text := trim (inputValue (ui w));
                     isUser := true; timestamp := Time (clock w) |} ])]
  ∧ fst <$> pending (step env w Submit)
    = (fst <$> pending w)
      ++ [provider_request env api
            (messages (ui w)
             ++ [ {| id := pretty (clock w); text := trim (inputValue (ui w));
                     isUser := true; timestamp := Time (clock w) |} ])].
Proof.
  unfold submitDisabled. intros Hen Hsel. cbn [step].
  rewrite ui_after_render, requests_after_render, pending_after_render,
    exec_handleSendMessage, Hen, Hsel. cbn.
  split; [done|]. split; [done|]. by rewrite fmap_app.
Qed.

(** X14. A submit with no API key set sends nothing and does not wait:
    it appends the user's message and, with the next id, an assistant
    message that tells which variables to set, and leaves [isLoading]
    false. *)
Theorem submit_without_key (w : World) :
  submitDisabled (ui w) = false →
  selected_provider env = None →
  ui (step env w Submit)
  = {| messages := messages (ui w)
                   ++ [ {| id := pretty (clock w); text := trim (inputValue (ui w));
                           isUser := true; timestamp := Time (clock w) |};
                        {| id := pretty (clock w + 1);
                           text := "Error: No API key found. Please set VITE_GEMINI_API_KEY, VITE_GROQ_API_KEY, or VITE_OPENAI_API_KEY in your environment variables.";
                           isUser := false; timestamp := Time (clock w) |} ];
       inputValue := ""; isLoading := false |}
  ∧ requests (step env w Submit) = requests w
  ∧ pending (step env w Submit) = pending w.
Proof.
  unfold submitDisabled. intros Hen Hsel. cbn [step].
  rewrite ui_after_render, requests_after_render, pending_after_render,
    exec_handleSendMessage, Hen, Hsel. cbn.
  by rewrite <- app_assoc.
Qed.

(** X15. When the call to the selected provider succeeds with a text,
    the send ends with the old messages, the user's message and one
    assistant message that carries the text, the id of the clock
    reading plus one and the time of arrival; [isLoading] is false
    again and no further request was sent. *)
Theorem successful_send_appends_reply (w : World) (api : Provider)
    (outcome : completion Response) (reply : string) (dt : N) :
  submitDisabled (ui w) = false →
  selected_provider env = Some api →
  outcome ≫= provider_result api = Return reply →
  let w1 := step env w Submit in
  let w2 := step env (step env w1 (Tick dt)) (Settle (length (pending w)) outcome) in
  ui w2
  = {| messages := messages (ui w)
                   ++ [ {| id := pretty (clock w); text := trim (inputValue (ui w));
                           isUser := true; timestamp := Time (clock w) |};
                        {| id := pretty (clock w + Z.of_N dt + 1); text := reply;
                           isUser := false; timestamp := Time (clock w + Z.of_N dt) |} ];
       inputValue := ""; isLoading := false |}
  ∧ requests w2 = requests w1
  ∧ pending w2 = pending w.
Proof.
  intros Hen Hsel Hreply w1 w2. unfold submitDisabled in Hen.
  assert (w1 = after_render w
            (sent (provider_request env api (messages (ui w) ++ [user_message w]))
               (suspended api) (submitted w))) as Hw1.
  { subst w1. cbn [step]. by rewrite exec_handleSendMessage, Hen, Hsel. }
  assert (pending (step env w1 (Tick dt)) !! length (pending w)
          = Some (provider_request env api (messages (ui w) ++ [user_message w]),
                  suspended api)) as Hp.
  { rewrite Hw1. cbn [step set_clock pending]. rewrite pending_after_render. cbn.
    by rewrite list_lookup_middle. }
  assert (w2 = after_render (step env w1 (Tick dt))
                 (finished reply []
                    (set_pending (delete (length (pending w))
                                    (pending (step env w1 (Tick dt))))
                       (step env w1 (Tick dt))))) as Hw2.
  { subst w2. unfold step at 1. by rewrite Hp, exec_suspended, Hreply. }
  rewrite Hw2, ui_after_render, requests_after_render, pending_after_render.
  cbn [finished ui requests pending messages inputValue set_pending step set_clock clock].
  rewrite Hw1, ui_after_render, requests_after_render, clock_after_render,
    pending_after_render.
  cbn. rewrite <- app_assoc. split; [done|]. split; [done|].
  by rewrite delete_middle, app_nil_r.
Qed.

(** X16. Clear Chat does not cancel a request in flight: when it
    settles, its reply is appended to the emptied list, which then
    shows the reply without the message it answers. *)
Theorem clear_chat_keeps_request (w : World) (api : Provider)
    (outcome : completion Response) :
  submitDisabled (ui w) = false →
  selected_provider env = Some api →
  let w1 := step env (step env w Submit) ClearChat in
  let w2 := step env w1 (Settle (length (pending w)) outcome) in
  messages (ui w1) = []
  ∧ fst <$> pending w1
    = (fst <$> pending w)
      ++ [provider_request env api (messages (ui w) ++ [user_message w])]
  ∧ messages (ui w2)
    = [ {| id := pretty (clock w + 1);
           text := reply_text (outcome ≫= provider_result api);
           isUser := false; timestamp := Time (clock w) |} ]
  ∧ isLoading (ui w2) = false.
Proof.
  intros Hen Hsel w1 w2. unfold submitDisabled in Hen.
  assert (step env w Submit
          = after_render w
              (sent (provider_request env api (messages (ui w) ++ [user_message w]))
                 (suspended api) (submitted w))) as Hs.
  { cbn [step]. by rewrite exec_handleSendMessage, Hen, Hsel. }
  subst w2 w1. rewrite Hs.
  set (req := provider_request env api (messages (ui w) ++ [user_message w])).
  set (ws := after_render w (sent req (suspended api) (submitted w))).
  assert (pending ws = pending w ++ [(req, suspended api)]) as Hpw
    by (subst ws; by rewrite pending_after_render).
  assert (clock ws = clock w) as Hcw by (subst ws; by rewrite clock_after_render).
  assert (pending (step env ws ClearChat) = pending ws) as E1
    by (cbn [step]; by rewrite pending_after_render).
  assert (messages (ui (step env ws ClearChat)) = []) as E2
    by (cbn [step]; by rewrite ui_after_render).
  assert (clock (step env ws ClearChat) = clock ws) as E3
    by (cbn [step]; by rewrite clock_after_render).
  split; [done|]. split; [by rewrite E1, Hpw, fmap_app|].
  set (wc := step env ws ClearChat) in *. clearbody wc.
  cbn [step]. rewrite E1, Hpw, list_lookup_middle by done.
  rewrite ui_after_render, exec_suspended. cbn. by rewrite E2, E3, Hcw.
Qed.

End Page.

(** ** Persistence *)

Section Persistence.
Context {R : Runtime}.

(** X17. After [clearChatHistory], whether or not the storage area
    let it remove the item, the next load returns the welcome message
    alone. *)
Theorem load_after_clear (now : Z) (b : Browser) :
  (loadMessagesFromStorage now (clearChatHistory b)).1
  = [object_of_message (welcome_message now)].
Proof.
  unfold clearChatHistory, removeItem, loadMessagesFromStorage,
    loadMessagesFromStorage_try, getItem.
  destruct (blocked (sessionStorage b)) eqn:Hb; cbn; rewrite ?Hb; cbn; [done|].
  by rewrite lookup_delete_eq.
Qed.

(** X18. The storage functions keep to their own key: saving and
    clearing leave every other item, the quota and the blocking of the
    area as they were, and loading changes nothing in the area. *)
Theorem storage_functions_keep_to_their_key (messages : list ChatMessage) (now : Z)
    (b : Browser) (key : string) :
  key ≠ AI_CHAT_STORAGE_KEY →
  items (sessionStorage (saveMessagesToStorage messages b)) !! key
  = items (sessionStorage b) !! key
  ∧ items (sessionStorage (clearChatHistory b)) !! key = items (sessionStorage b) !! key
  ∧ quota (sessionStorage (saveMessagesToStorage messages b)) = quota (sessionStorage b)
  ∧ blocked (sessionStorage (saveMessagesToStorage messages b))
    = blocked (sessionStorage b)
  ∧ quota (sessionStorage (clearChatHistory b)) = quota (sessionStorage b)
  ∧ blocked (sessionStorage (clearChatHistory b)) = blocked (sessionStorage b)
  ∧ sessionStorage (loadMessagesFromStorage now b).2 = sessionStorage b.
Proof.
  intros Hkey.
  unfold saveMessagesToStorage, clearChatHistory, setItem, removeItem,
    loadMessagesFromStorage.
  destruct (blocked (sessionStorage b)) eqn:Hb; cbn.
  - repeat split; try done.
    destruct (loadMessagesFromStorage_try b) as [[os|]|e]; done.
  - rewrite lookup_delete_ne by done.
    destruct (_ <? _)%N; cbn; rewrite ?lookup_insert_ne by done;
      (repeat split; try done);
      destruct (loadMessagesFromStorage_try b) as [[os|]|e]; done.
Qed.

(** X19. A write that the storage area refuses changes nothing that is
    stored: the failure is logged, and a load afterwards returns what
    it returned before. *)
Theorem refused_write_keeps_stored_list (messages : list ChatMessage) (now : Z)
    (b : Browser) (e : exn) :
  setItem (sessionStorage b) AI_CHAT_STORAGE_KEY
    (JSON_stringify (JArr (map ChatMessage_toJSON messages))) = Throw e →
  saveMessagesToStorage messages b
  = console_error "Failed to save messages to storage:" b
  ∧ (loadMessagesFromStorage now (saveMessagesToStorage messages b)).1
    = (loadMessagesFromStorage now b).1.
Proof.
  intros Hset. unfold saveMessagesToStorage. rewrite Hset. split; [done|].
  unfold loadMessagesFromStorage, loadMessagesFromStorage_try. cbn.
  by destruct (_ ≫= _) as [[os|]|e'].
Qed.

(** X20. A stored value that parses to something other than an array,
    or to an array with a [null] element, is dropped as a whole: the
    load logs the failure and returns the welcome message. *)
Theorem load_drops_malformed_list (now : Z) (b : Browser) (s : string) (v : json) :
  getItem (sessionStorage b) AI_CHAT_STORAGE_KEY = Return (Some s) →
  s ≠ "" →
  JSON_parse s = Return v →
  (∀ l, v ≠ JArr l) ∨ (∃ l, v = JArr l ∧ JNull ∈ l) →
  loadMessagesFromStorage now b
  = ([object_of_message (welcome_message now)],
     console_error "Failed to load messages from storage:" b).
Proof.
  intros Hget Hs Hparse Hv.
  unfold loadMessagesFromStorage, loadMessagesFromStorage_try. rewrite Hget. cbn.
  destruct (String.eqb_spec s "") as [|_]; [done|]. rewrite Hparse. cbn.
  destruct Hv as [Hv|(l & -> & Hl)].
  - destruct v as [ |b'|n|s'|l|props]; try done. by destruct (Hv l).
  - assert (∃ e, map_revive l = Throw e) as [e ->]; [|done].
    clear Hparse. induction l as [|y l IH]; [by apply elem_of_nil in Hl|].
    apply elem_of_cons in Hl as [<-|Hl]; cbn [map_revive].
    + cbn. by eexists.
    + destruct (revive y) as [o|e]; cbn; [|by eexists].
      destruct (IH Hl) as [e ->]. by eexists.
Qed.

Section Lawful.
Hypothesis laws : RuntimeLaws R.

Lemma load_after_write (messages : list ChatMessage) (now : Z) (b : Browser)
    (st : Storage) :
  setItem (sessionStorage b) AI_CHAT_STORAGE_KEY
    (JSON_stringify (JArr (map ChatMessage_toJSON messages))) = Return st →
  saveMessagesToStorage messages b = with_storage st b
  ∧ loadMessagesFromStorage_try (with_storage st b)
    = (os ← map_revive (map ChatMessage_toJSON messages); Return (Some os)).
Proof.
  intros Hset. unfold saveMessagesToStorage. rewrite Hset. split; [done|].
  unfold setItem in Hset.
  destruct (blocked (sessionStorage b)) eqn:Hb; [done|].
  case_match; [done|]. injection Hset as <-.
  unfold loadMessagesFromStorage_try, getItem. cbn.
  rewrite ?Hb, lookup_insert_eq. cbn.
  destruct (String.eqb_spec (JSON_stringify (JArr (map ChatMessage_toJSON messages))) "")
    as [He|_];
    [by apply (JSON_stringify_nonempty R laws) in He; [|apply json_wf_messages]|].
  by rewrite (JSON_parse_stringify R laws) by apply json_wf_messages.
Qed.

(** X21. A message whose timestamp is an Invalid Date is stored with a
    [null] timestamp and comes back dated at the epoch; the messages
    with a valid timestamp come back as they were. *)
Theorem invalid_timestamp_becomes_epoch (messages : list ChatMessage) (now : Z)
    (b : Browser) (st : Storage) :
  Forall (fun m => valid_Date (timestamp m) ∨ timestamp m = InvalidDate) messages →
  setItem (sessionStorage b) AI_CHAT_STORAGE_KEY
    (JSON_stringify (JArr (map ChatMessage_toJSON messages))) = Return st →
  (loadMessagesFromStorage now (saveMessagesToStorage messages b)).1
  = map (fun m =>
           object_of_message
             {| id := id m; text := text m; isUser := isUser m;
                timestamp := match timestamp m with
                             | Time ms => Time ms
                             | InvalidDate => Time 0
                             end |}) messages.
Proof.
  intros Hm Hset. destruct (load_after_write messages now b st Hset) as [-> Htry].
  unfold loadMessagesFromStorage. rewrite Htry. clear Htry Hset.
  match goal with
  | |- context [map ?f messages] =>
      assert (map_revive (map ChatMessage_toJSON messages) = Return (map f messages))
        as ->; [|done]
  end.
  induction Hm as [|m msgs Hm _ IH]; [done|].
  cbn [map map_revive]. rewrite IH.
  destruct m as [i t u [ms|]]; destruct Hm as [Hm|Hm]; try done; cbn in *.
  unfold revive. cbn. by rewrite (Date_parse_toISOString R laws).
Qed.

(** X22. A reload restores what the save effect stored: when the write
    of a non-empty list of messages with valid timestamps succeeds,
    the page mounted afterwards shows the same messages, with an empty
    input and nothing loading or in flight. *)
Theorem reload_restores_conversation (w : World) (now : Z) (st : Storage) :
  messages (ui w) ≠ [] →
  Forall (fun m => valid_Date (timestamp m)) (messages (ui w)) →
  setItem (sessionStorage (browser w)) AI_CHAT_STORAGE_KEY
    (JSON_stringify (JArr (map ChatMessage_toJSON (messages (ui w))))) = Return st →
  ∃ w' : World,
    mount now (browser (save_effect w)) = Some w'
    ∧ ui w' = {| messages := messages (ui w); inputValue := ""; isLoading := false |}
    ∧ pending w' = [] ∧ requests w' = [].
Proof.
  intros Hne Hvalid Hset.
  destruct (load_after_write _ now _ st Hset) as [Hsave Htry].
  unfold save_effect at 1. destruct (messages (ui w)) as [|m msgs] eqn:Hmsgs; [done|].
  cbn [set_browser browser]. rewrite Hsave.
  unfold mount, loadMessagesFromStorage. rewrite Htry.
  rewrite (map_revive_messages laws _ Hvalid). cbn [mbind completion_bind cbind].
  rewrite as_ChatMessage_object. cbn [mbind option_bind].
  eexists. split; [reflexivity|].
  unfold save_effect. cbn. done.
Qed.

End Lawful.
End Persistence.

(** ** Message ids and the stored item *)

Section Exchange.
Context {R : Runtime} (env : Env).

Lemma exchange_messages (w : World) (api : Provider)
    (outcome : completion Response) (dt : N) :
  submitDisabled (ui w) = false →
  selected_provider env = Some api →
  messages (ui (step env (step env (step env w Submit) (Tick dt))
                  (Settle (length (pending w)) outcome)))
  = messages (ui w)
    ++ [ {| id := pretty (clock w); text := trim (inputValue (ui w));
            isUser := true; timestamp := Time (clock w) |};
         {| id := pretty (clock w + Z.of_N dt + 1);
            text := reply_text (outcome ≫= provider_result api);
            isUser := false; timestamp := Time (clock w + Z.of_N dt) |} ].
Proof.
  intros Hen Hsel. unfold submitDisabled in Hen.
  assert (step env w Submit
          = after_render w
              (sent (provider_request env api (messages (ui w) ++ [user_message w]))
                 (suspended api) (submitted w))) as ->.
  { cbn [step]. by rewrite exec_handleSendMessage, Hen, Hsel. }
  set (req := provider_request env api (messages (ui w) ++ [user_message w])).
  set (ws := after_render w (sent req (suspended api) (submitted w))).
  assert (pending ws = pending w ++ [(req, suspended api)]) as Hpw
    by (subst ws; by rewrite pending_after_render).
  assert (clock ws = clock w) as Hcw by (subst ws; by rewrite clock_after_render).
  assert (messages (ui ws) = messages (ui w) ++ [user_message w]) as Hmw
    by (subst ws; by rewrite ui_after_render).
  clearbody ws. cbn [step set_clock pending].
  rewrite Hpw, list_lookup_middle by done.
  rewrite ui_after_render, exec_suspended. cbn. rewrite Hmw, Hcw.
  by rewrite <- app_assoc.
Qed.

(** X24. An exchange that starts at a clock reading above every id in
    the list keeps the ids distinct: the reply gets the reading at its
    arrival plus one, which differs from the id of the message it
    answers and from every earlier id. *)
Theorem exchange_keeps_ids_distinct (w : World) (api : Provider)
    (outcome : completion Response) (dt : N) :
  submitDisabled (ui w) = false →
  selected_provider env = Some api →
  NoDup (id <$> messages (ui w)) →
  Forall (fun m => ∃ k : Z, id m = pretty k ∧ k < clock w) (messages (ui w)) →
  NoDup (id <$> messages (ui (step env (step env (step env w Submit) (Tick dt))
                                (Settle (length (pending w)) outcome)))).
Proof.
  intros Hen Hsel Hnd Hold. rewrite (exchange_messages w api outcome dt Hen Hsel).
  rewrite fmap_app. apply NoDup_app. split; [done|]. split.
  - intros i Hi Hnew. apply list_elem_of_fmap in Hi as (m & -> & Hm).
    rewrite Forall_forall in Hold. destruct (Hold m Hm) as (k & Hk & Hlt).
    rewrite Hk in Hnew. cbn in Hnew.
    apply elem_of_cons in Hnew as [Hnew|Hnew].
    + apply (inj pretty) in Hnew. lia.
    + apply elem_of_cons in Hnew as [Hnew|Hnew]; [|by apply elem_of_nil in Hnew].
      apply (inj pretty) in Hnew. lia.
  - cbn. apply NoDup_cons. split; [|apply NoDup_singleton].
    intros Hin. apply list_elem_of_singleton in Hin.
    apply (inj pretty) in Hin. lia.
Qed.

(** X25. Clear Chat leaves no list in the storage area: when the area
    is not blocked, the item is absent after it, the empty list not
    being written. *)
Theorem clear_chat_removes_stored_item (w : World) :
  blocked (sessionStorage (browser w)) = false →
  items (sessionStorage (browser (step env w ClearChat))) !! AI_CHAT_STORAGE_KEY = None
  ∧ messages (ui (step env w ClearChat)) = [].
Proof.
  intros Hb. cbn [step].
  assert (after_render w (handleClearChat w) = handleClearChat w) as ->.
  { unfold after_render, save_effect. by case_decide. }
  split; [|done]. unfold handleClearChat. cbn [set_ui set_browser browser].
  unfold clearChatHistory, removeItem. rewrite Hb. cbn.
  by rewrite lookup_delete_eq.
Qed.

End Exchange.

(** X26. Of a message only the text and the [isUser] flag reach a
    provider: conversations that agree on these give the same request,
    whatever their ids and timestamps. *)
Theorem request_ignores_ids_and_timestamps (env : Env) (api : Provider)
    (l l' : list ChatMessage) :
  map (fun m => (text m, isUser m)) l = map (fun m => (text m, isUser m)) l' →
  provider_request env api l = provider_request env api l'.
Proof.
  intros H.
  assert (convertToOpenAIFormat l = convertToOpenAIFormat l') as Ho.
  { unfold convertToOpenAIFormat. f_equal. clear env api. revert l' H.
    induction l as [|m l IH]; intros [|m' l'] H; try done.
    cbn in *. injection H as Ht Hu H. rewrite Ht, Hu. f_equal. by apply IH. }
  assert (∀ first, fst (fold_left gemini_push l ([], first))
                   = fst (fold_left gemini_push l' ([], first))) as Hg.
  { clear Ho env api. revert l' H.
    induction l as [|m l IH]; intros [|m' l'] H first; try done.
    cbn in H. injection H as Ht Hu H. rewrite !gemini_cons.
    unfold gemini_user, gemini_model. rewrite Ht, Hu. f_equal. by apply IH. }
  destruct api; unfold provider_request, gemini_request, groq_request, openai_request,
    chat_completion_request, convertToGeminiFormat; by rewrite ?Ho, ?Hg.
Qed.

(** ** Translation of a growing conversation *)

Lemma gemini_app (l l' : list ChatMessage) (first : bool) :
  fst (fold_left gemini_push (l ++ l') ([], first))
  = fst (fold_left gemini_push l ([], first))
    ++ fst (fold_left gemini_push l'
              ([], first && forallb (fun m => negb (isUser m)) l)).
Proof.
  revert first. induction l as [|m l IH]; intros first.
  - cbn. by rewrite andb_true_r.
  - change ((m :: l) ++ l') with (m :: (l ++ l')).
    rewrite !gemini_cons, IH. cbn [forallb app]. do 3 f_equal.
    destruct (isUser m); cbn; [by rewrite andb_false_r|done].
Qed.

(** X23. What was translated stays as it was when the conversation
    grows: in both formats the translation of a list of messages is the
    beginning of the translation of every list that continues it. *)
Theorem translation_of_a_continuation (l l' : list ChatMessage) :
  take (S (length l)) (convertToOpenAIFormat (l ++ l')) = convertToOpenAIFormat l
  ∧ take (length l) (convertToGeminiFormat (l ++ l')) = convertToGeminiFormat l.
Proof.
  split.
  - unfold convertToOpenAIFormat. rewrite map_app. cbn [take]. f_equal.
    rewrite take_app_length'; [done|by rewrite length_map].
  - unfold convertToGeminiFormat. rewrite gemini_app.
    rewrite take_app_length'; [done|by rewrite gemini_length].
Qed.

(** ** The further properties on concrete pages *)

Lemma submit_trims_input_witness :
  let w := step Sample.gemini_env Sample.mounted (Change "  Why? ") in
  ∃ (user : ChatMessage) (rest : list ChatMessage),
    messages (ui (step Sample.gemini_env w Submit)) = messages (ui w) ++ user :: rest
    ∧ isUser user = true
    ∧ text user = trim (inputValue (ui w))
    ∧ text user ≠ ""
    ∧ trimStart (text user) = text user
    ∧ trimEnd (text user) = text user.
Proof.
  destruct (submit_trims_input Sample.gemini_env
              (step Sample.gemini_env Sample.mounted (Change "  Why? "))) as [_ H].
  apply H; reflexivity.
Defined.

Lemma submitDisabled_iff_no_effect_witness :
  step Sample.gemini_env Sample.mounted Submit = Sample.mounted.
Proof.
  apply (submitDisabled_iff_no_effect Sample.gemini_env Sample.mounted). reflexivity.
Defined.

Lemma loading_iff_request_in_flight_witness :
  pending (steps Sample.gemini_env Sample.mounted [Change "Why?"; Submit]) ≠ [].
Proof.
  apply (loading_iff_request_in_flight Sample.gemini_env
           (steps Sample.gemini_env Sample.mounted [Change "Why?"; Submit])).
  - apply reachable_sample.
  - reflexivity.
Defined.

Lemma requests_go_to_selected_provider_witness :
  let w := steps Sample.gemini_env Sample.mounted [Change "Why?"; Submit] in
  Forall (fun req => ∃ (api : Provider) (messages : list ChatMessage),
            selected_provider Sample.gemini_env = Some api
            ∧ req = provider_request Sample.gemini_env api messages) (requests w)
  ∧ (selected_provider Sample.gemini_env = None → requests w = []).
Proof.
  apply (requests_go_to_selected_provider Sample.gemini_env
           (steps Sample.gemini_env Sample.mounted [Change "Why?"; Submit])).
  apply reachable_sample.
Defined.

Lemma submit_sends_conversation_witness :
  let w := step Sample.gemini_env Sample.mounted (Change "Why?") in
  requests (step Sample.gemini_env w Submit)
  = [gemini_request
       [welcome_message 1000;
        {| id := "1000"; text := "Why?"; isUser := true; timestamp := Time 1000 |}]
       "gemini-key"].
Proof.
  destruct (submit_sends_conversation Sample.gemini_env
              (step Sample.gemini_env Sample.mounted (Change "Why?")) GeminiAPI)
    as (_ & H & _); [reflexivity..|].
  exact H.
Defined.

Lemma submit_without_key_witness :
  let w := step Demo.no_key_env Sample.mounted (Change "Why?") in
  requests (step Demo.no_key_env w Submit) = []
  ∧ isLoading (ui (step Demo.no_key_env w Submit)) = false.
Proof.
  destruct (submit_without_key Demo.no_key_env
              (step Demo.no_key_env Sample.mounted (Change "Why?")))
    as (Hui & Hreq & _); [reflexivity..|].
  split; [exact Hreq|]. by rewrite Hui.
Defined.

Lemma successful_send_appends_reply_witness :
  let w := step Sample.gemini_env Sample.mounted (Change "Why?") in
  let w1 := step Sample.gemini_env w Submit in
  let w2 := step Sample.gemini_env (step Sample.gemini_env w1 (Tick 4000))
              (Settle 0 (Return Sample.gemini_reply)) in
  ui w2
  = {| messages :=
         [welcome_message 1000;
          {| id := "1000"; text := "Why?"; isUser := true; timestamp := Time 1000 |};
          {| id := "5001"; text := "Hello!"; isUser := false; timestamp := Time 5000 |}];
       inputValue := ""; isLoading := false |}.
Proof.
  destruct (successful_send_appends_reply Sample.gemini_env
              (step Sample.gemini_env Sample.mounted (Change "Why?"))
              GeminiAPI (Return Sample.gemini_reply) "Hello!" 4000)
    as (H & _); [reflexivity..|].
  exact H.
Defined.

Lemma clear_chat_keeps_request_witness :
  let w := step Sample.gemini_env Sample.mounted (Change "Why?") in
  let w1 := step Sample.gemini_env (step Sample.gemini_env w Submit) ClearChat in
  let w2 := step Sample.gemini_env w1 (Settle 0 (Return Sample.gemini_reply)) in
  messages (ui w2)
  = [ {| id := "1001"; text := "Hello!"; isUser := false; timestamp := Time 1000 |} ].
Proof.
  destruct (clear_chat_keeps_request Sample.gemini_env
              (step Sample.gemini_env Sample.mounted (Change "Why?"))
              GeminiAPI (Return Sample.gemini_reply))
    as (_ & _ & H & _); [reflexivity..|].
  exact H.
Defined.

Lemma storage_functions_keep_to_their_key_witness :
  items (sessionStorage (saveMessagesToStorage [Sample.question] Sample.fresh_browser))
    !! "theme"
  = items (sessionStorage Sample.fresh_browser) !! "theme".
Proof.
  destruct (storage_functions_keep_to_their_key [Sample.question] 1000
              Sample.fresh_browser "theme") as (H & _); [discriminate|].
  exact H.
Defined.

Lemma refused_write_keeps_stored_list_witness :
  saveMessagesToStorage [Sample.question] Sample.full_browser
  = console_error "Failed to save messages to storage:" Sample.full_browser
  ∧ (loadMessagesFromStorage 1000
       (saveMessagesToStorage [Sample.question] Sample.full_browser)).1
    = (loadMessagesFromStorage 1000 Sample.full_browser).1.
Proof.
  apply (refused_write_keeps_stored_list [Sample.question] 1000 Sample.full_browser
           (Error "The quota has been exceeded.")).
  vm_compute. reflexivity.
Defined.

Lemma load_drops_malformed_list_witness :
  loadMessagesFromStorage 1000
    {| sessionStorage := {| blocked := false; quota := 100;
                            items := {[ AI_CHAT_STORAGE_KEY := "[null]" ]} |};
       console := [] |}
  = ([object_of_message (welcome_message 1000)],
     console_error "Failed to load messages from storage:"
       {| sessionStorage := {| blocked := false; quota := 100;
                               items := {[ AI_CHAT_STORAGE_KEY := "[null]" ]} |};
          console := [] |}).
Proof.
  apply (load_drops_malformed_list 1000 _ "[null]" (JArr [JNull])).
  - vm_compute. reflexivity.
  - discriminate.
  - vm_compute. reflexivity.
  - right. exists [JNull]. split; [reflexivity|]. constructor.
Defined.

Lemma invalid_timestamp_becomes_epoch_witness :
  (loadMessagesFromStorage 1000
     (saveMessagesToStorage
        [ {| id := "7"; text := "When?"; isUser := true; timestamp := InvalidDate |} ]
        Sample.fresh_browser)).1
  = [object_of_message
       {| id := "7"; text := "When?"; isUser := true; timestamp := Time 0 |}].
Proof.
  eapply (invalid_timestamp_becomes_epoch ref_laws
            [ {| id := "7"; text := "When?"; isUser := true; timestamp := InvalidDate |} ]
            1000 Sample.fresh_browser).
  - constructor; [by right|constructor].
  - vm_compute. reflexivity.
Defined.

Lemma reload_restores_conversation_witness :
  ∃ w' : World,
    mount 9000 (browser (save_effect Sample.mounted)) = Some w'
    ∧ ui w' = {| messages := [welcome_message 1000]; inputValue := "";
                 isLoading := false |}
    ∧ pending w' = [] ∧ requests w' = [].
Proof.
  eapply (reload_restores_conversation ref_laws Sample.mounted 9000).
  - discriminate.
  - repeat constructor; unfold MAX_TIME; cbn; lia.
  - vm_compute. reflexivity.
Defined.

Lemma exchange_keeps_ids_distinct_witness :
  let w := step Sample.gemini_env Sample.mounted (Change "Why?") in
  NoDup (id <$> messages
                  (ui (step Sample.gemini_env
                         (step Sample.gemini_env (step Sample.gemini_env w Submit)
                            (Tick 4000))
                         (Settle 0 (Return Sample.gemini_reply))))).
Proof.
  apply (exchange_keeps_ids_distinct Sample.gemini_env
           (step Sample.gemini_env Sample.mounted (Change "Why?"))
           GeminiAPI (Return Sample.gemini_reply) 4000).
  - reflexivity.
  - reflexivity.
  - apply NoDup_singleton.
  - repeat constructor. exists 1. split; [reflexivity|]. cbn. lia.
Defined.

Lemma clear_chat_removes_stored_item_witness :
  items (sessionStorage (browser (step Sample.gemini_env Sample.mounted ClearChat)))
    !! AI_CHAT_STORAGE_KEY = None
  ∧ messages (ui (step Sample.gemini_env Sample.mounted ClearChat)) = [].
Proof.
  apply (clear_chat_removes_stored_item Sample.gemini_env Sample.mounted). reflexivity.
Defined.

Lemma request_ignores_ids_and_timestamps_witness :
  provider_request Sample.gemini_env GeminiAPI [Sample.question]
  = provider_request Sample.gemini_env GeminiAPI
      [ {| id := "2"; text := "What is a monad?"; isUser := true;
           timestamp := InvalidDate |} ].
Proof.
  apply (request_ignores_ids_and_timestamps Sample.gemini_env GeminiAPI).
  reflexivity.
Defined.
